(** * Join-strategy selection of the physical plan generator

    A shallow embedding of
    [src/execution/physical_plan/plan_comparison_join.cpp]:
    [can_plan_index_join], [TransformIndexJoin] and
    [PhysicalPlanGenerator::CreatePlan(LogicalComparisonJoin &)],
    followed by the properties of the selection that the specification
    states.

    Conventions of the embedding
    - C++ vectors are lists, [unordered_map]s are [gmap]s, a pointer that
      may be null is an [option], an object whose address is used as a key
      carries that address as a [positive].
    - [assert] aborts when the translation unit is compiled without
      [NDEBUG] and is a no-op with it; the build is the [ndebug] flag and
      a call returns an [Outcome].
    - [idx_t] is [N]; the only arithmetic done on it is the conversion to
      [double], which is modelled bit-exactly with [SpecFloat]. *)

From Stdlib Require Import ZArith NArith List Bool Lia.
From Stdlib Require Import SpecFloat.
From stdpp Require Import base gmap strings.

Import ListNotations.
Open Scope string_scope.
Open Scope list_scope.

(* ===================================================================== *)
(** * Enumerations *)
(* ===================================================================== *)

(** The comparison members of [ExpressionType]. *)
Inductive ExpressionType :=
| COMPARE_EQUAL
| COMPARE_NOTEQUAL
| COMPARE_LESSTHAN
| COMPARE_GREATERTHAN
| COMPARE_LESSTHANOREQUALTO
| COMPARE_GREATERTHANOREQUALTO.

Inductive JoinType :=
| LEFT | RIGHT | INNER | OUTER | SEMI | ANTI | MARK | SINGLE.

Inductive PhysicalOperatorType :=
| TABLE_SCAN
| FILTER
| CROSS_PRODUCT
| HASH_JOIN
| INDEX_JOIN
| PIECEWISE_MERGE_JOIN
| NESTED_LOOP_JOIN.

Inductive LogicalType := BOOLEAN | INTEGER | BIGINT | DOUBLE | VARCHAR.

#[global] Instance ExpressionType_eq_dec : EqDecision ExpressionType.
Proof. solve_decision. Defined.
#[global] Instance JoinType_eq_dec : EqDecision JoinType.
Proof. solve_decision. Defined.
#[global] Instance PhysicalOperatorType_eq_dec : EqDecision PhysicalOperatorType.
Proof. solve_decision. Defined.

(** [a == b] on an enumeration. *)
Definition ExpressionType_eqb (a b : ExpressionType) : bool := bool_decide (a = b).
Definition JoinType_eqb (a b : JoinType) : bool := bool_decide (a = b).

(* ===================================================================== *)
(** * Expressions, conditions, indexes, tables *)
(* ===================================================================== *)

Abbreviation idx_t := N (only parsing).

(** The planner reads one member of an expression, [alias]. [binding]
    (table index, column index) stands for what else identifies the
    column an expression refers to. *)
Record Expression := {
  alias : string;
  binding : idx_t * idx_t
}.

Module JoinCondition.
Record t := {
  left : Expression;
  right : Expression;
  comparison : ExpressionType;
  null_values_are_equal : bool
}.
End JoinCondition.

(** [Index::unbound_expressions] is read at position 0 without a size
    test: an index is built over at least one expression, and the vector
    is kept as that first expression and the further ones. *)
Record Index := {
  unbound_expressions : Expression * list Expression
}.

(** [index->unbound_expressions[0]] *)
Definition unbound_expressions_0 (index : Index) : Expression :=
  fst (unbound_expressions index).

Record DataTableInfo := {
  indexes : list Index
}.

(** [data_table_addr] is the address of the [DataTable] object, the key
    of the transaction-local storage. *)
Record DataTable := {
  data_table_addr : positive;
  info : DataTableInfo
}.

Record TableCatalogEntry := {
  storage : DataTable
}.

Record TableScanBindData := {
  table : TableCatalogEntry
}.

(** What [PhysicalTableScan::bind_data] may point to: the bind data of
    the built-in table scan, or that of another table function. *)
Inductive FunctionData :=
| TableScanBind (bd : TableScanBindData)
| OtherBind.

(** [dynamic_cast] of [bind_data.get()] to a [TableScanBindData] pointer. *)
Definition dynamic_cast_TableScanBindData (p : option FunctionData)
  : option TableScanBindData :=
  match p with
  | Some (TableScanBind bd) => Some bd
  | _ => None
  end.

(** [ConstantFilter] of [duckdb/planner/filter/constant_filter.hpp]. *)
Record ConstantFilter := {
  comparison_type : ExpressionType;
  constant : Z
}.

Record TableFilterSet := {
  filters : gmap N ConstantFilter
}.

Record PhysicalTableScan := {
  bind_data : option FunctionData;
  column_ids : list idx_t;
  table_filters : option TableFilterSet
}.

(* ===================================================================== *)
(** * Transactions *)
(* ===================================================================== *)

Record LocalTableStorage := {
  appended_rows : idx_t
}.

(** [LocalStorage]: the tables that hold rows appended by the running
    transaction, keyed by the address of the [DataTable]. *)
Record LocalStorage := {
  table_storage : gmap positive LocalTableStorage
}.

(** [LocalStorage::Find], given a pointer to a [DataTable]. *)
Definition Find (s : LocalStorage) (t : DataTable) : option LocalTableStorage :=
  table_storage s !! data_table_addr t.

Record Transaction := {
  txn_storage : LocalStorage
}.

Record ClientContext := {
  transaction : Transaction;
  force_index_join : bool
}.

(** [Transaction::GetTransaction(context)] *)
Definition GetTransaction (context : ClientContext) : Transaction :=
  transaction context.

(* ===================================================================== *)
(** * Logical and physical operators *)
(* ===================================================================== *)

Record LogicalComparisonJoin := {
  types : list LogicalType;
  join_type : JoinType;
  conditions : list JoinCondition.t;
  left_projection_map : list idx_t;
  right_projection_map : list idx_t
}.

(** The physical operators this file builds or inspects. Every
    constructor takes its arguments in the order of the C++ constructor
    call, the leading [LogicalOperator &op] contributing [op.types]. *)
Inductive PhysicalOperator :=
| Scan (scan : PhysicalTableScan)
| PhysicalFilter (tys : list LogicalType) (child : PhysicalOperator)
| PhysicalCrossProduct (tys : list LogicalType) (l r : PhysicalOperator)
| PhysicalHashJoin (tys : list LogicalType) (l r : PhysicalOperator)
    (cond : list JoinCondition.t) (jt : JoinType)
    (left_projection_map right_projection_map : list idx_t)
| PhysicalIndexJoin (tys : list LogicalType) (l r : PhysicalOperator)
    (cond : list JoinCondition.t) (jt : JoinType)
    (left_projection_map right_projection_map : list idx_t)
    (column_ids : list idx_t) (index : Index) (lhs_first : bool)
| PhysicalPiecewiseMergeJoin (tys : list LogicalType) (l r : PhysicalOperator)
    (cond : list JoinCondition.t) (jt : JoinType)
| PhysicalNestedLoopJoin (tys : list LogicalType) (l r : PhysicalOperator)
    (cond : list JoinCondition.t) (jt : JoinType).

(** [PhysicalOperator::type]. The test [p->type == TABLE_SCAN] followed
    by the cast of [p] to a [PhysicalTableScan] is a match on [Scan]
    (lemma [type_TABLE_SCAN]). *)
Definition type (p : PhysicalOperator) : PhysicalOperatorType :=
  match p with
  | Scan _ => TABLE_SCAN
  | PhysicalFilter _ _ => FILTER
  | PhysicalCrossProduct _ _ _ => CROSS_PRODUCT
  | PhysicalHashJoin _ _ _ _ _ _ _ => HASH_JOIN
  | PhysicalIndexJoin _ _ _ _ _ _ _ _ _ _ => INDEX_JOIN
  | PhysicalPiecewiseMergeJoin _ _ _ _ _ => PIECEWISE_MERGE_JOIN
  | PhysicalNestedLoopJoin _ _ _ _ _ => NESTED_LOOP_JOIN
  end.

(* ===================================================================== *)
(** * The cardinality test in double precision *)
(* ===================================================================== *)

(** [idx_t] to [double]: round to nearest, ties to even (binary64). *)
Definition double_of_idx (n : idx_t) : spec_float :=
  binary_normalize 53 1024 (Z.of_N n) 0 false.

(** The literal [0.01]: [0x1.47AE147AE147Bp-7]. *)
Definition double_0_01 : spec_float :=
  S754_finite false 5764607523034235 (-59).

(** [small < 0.01 * big] with both cardinalities converted to [double]:
    the comparison the machine performs, the rounding of the two
    conversions and of the product included. *)
Definition lt_one_percent (small big : idx_t) : bool :=
  SFltb (double_of_idx small) (SFmul 53 1024 double_0_01 (double_of_idx big)).

(* ===================================================================== *)
(** * Assertions *)
(* ===================================================================== *)

(** What a call does: it returns a value, or an [assert] aborts the
    process. *)
Inductive Outcome (A : Type) :=
| Returned (a : A)
| AssertionFailed.
Arguments Returned {A} a.
Arguments AssertionFailed {A}.

#[global] Instance Outcome_ret : MRet Outcome := fun _ a => Returned a.

#[global] Instance Outcome_bind : MBind Outcome := fun _ _ k m =>
  match m with
  | Returned a => k a
  | AssertionFailed => AssertionFailed
  end.

(** [assert(b)]: compiled out under [NDEBUG]. *)
Definition assert (ndebug : bool) (b : bool) : Outcome unit :=
  if ndebug then Returned tt
  else if b then Returned tt else AssertionFailed.

(* ===================================================================== *)
(** * can_plan_index_join *)
(* ===================================================================== *)

Definition can_plan_index_join (transaction : Transaction)
    (bind_data : option TableScanBindData) (scan : PhysicalTableScan) : bool :=
  match bind_data with
  | None =>
      (* not a table scan *)
      false
  | Some bind_data =>
      let table := table bind_data in
      match Find (txn_storage transaction) (storage table) with
      | Some _ =>
          (* transaction local appends: skip index join *)
          false
      | None =>
          match table_filters scan with
          | Some tf =>
              if (0 <? size (filters tf))%nat then
                (* table scan filters *)
                false
              else true
          | None => true
          end
      end
  end.

(* ===================================================================== *)
(** * TransformIndexJoin *)
(* ===================================================================== *)

(** The loop over a table's indexes: the first index, in the order of
    the vector, whose first expression carries the alias [a]. *)
Fixpoint find_index (indexes : list Index) (a : string) : option Index :=
  match indexes with
  | [] => None
  | index :: rest =>
      if String.eqb (alias (unbound_expressions_0 index)) a
      then Some index
      else find_index rest a
  end.

(** The two out-parameters [left_index] and [right_index] start as null
    pointers in the caller and are returned as a pair. *)
Definition TransformIndexJoin (context : ClientContext)
    (op : LogicalComparisonJoin) (left right : PhysicalOperator)
  : option Index * option Index :=
  let transaction := GetTransaction context in
  (* check if one of the tables has an index on column *)
  if JoinType_eqb (join_type op) INNER && (length (conditions op) =? 1)%nat then
    match conditions op with
    | cond0 :: _ =>
        (* check if one of the children are table scans and if they have
           an index in the join attribute *)
        let left_index :=
          match left with
          | Scan tbl_scan =>
              let tbl := dynamic_cast_TableScanBindData (bind_data tbl_scan) in
              if can_plan_index_join transaction tbl tbl_scan then
                match tbl with
                | Some tbl =>
                    find_index (indexes (info (storage (table tbl))))
                      (alias (JoinCondition.left cond0))
                | None => None
                end
              else None
          | _ => None
          end in
        let right_index :=
          match right with
          | Scan tbl_scan =>
              let tbl := dynamic_cast_TableScanBindData (bind_data tbl_scan) in
              if can_plan_index_join transaction tbl tbl_scan then
                match tbl with
                | Some tbl =>
                    find_index (indexes (info (storage (table tbl))))
                      (alias (JoinCondition.right cond0))
                | None => None
                end
              else None
          | _ => None
          end in
        (left_index, right_index)
    | [] => (None, None)
    end
  else (None, None).

(* ===================================================================== *)
(** * CreatePlan *)
(* ===================================================================== *)

(** The flags set by the loop over the conditions. *)
Record CondFlags := {
  has_equality : bool;
  has_inequality : bool;
  has_null_equal_conditions : bool
}.

Definition no_flags : CondFlags :=
  {| has_equality := false; has_inequality := false;
     has_null_equal_conditions := false |}.

(** The body of the loop, for one condition. [has_null_equal_conditions]
    exists only without [NDEBUG]; it is read by an [assert] alone, so
    keeping it in both builds changes no result. *)
Definition scan_condition (ndebug : bool) (f : CondFlags)
    (cond : JoinCondition.t) : Outcome CondFlags :=
  let heq :=
    if ExpressionType_eqb (JoinCondition.comparison cond) COMPARE_EQUAL
    then true else has_equality f in
  let hineq :=
    if ExpressionType_eqb (JoinCondition.comparison cond) COMPARE_NOTEQUAL
    then true else has_inequality f in
  if JoinCondition.null_values_are_equal cond then
    assert ndebug (ExpressionType_eqb (JoinCondition.comparison cond) COMPARE_EQUAL) ;;
    Returned {| has_equality := heq; has_inequality := hineq;
                has_null_equal_conditions := true |}
  else
    Returned {| has_equality := heq; has_inequality := hineq;
                has_null_equal_conditions := has_null_equal_conditions f |}.

(** [for (auto &cond : op.conditions) ...] *)
Fixpoint scan_conditions (ndebug : bool) (f : CondFlags)
    (conds : list JoinCondition.t) : Outcome CondFlags :=
  match conds with
  | [] => Returned f
  | cond :: rest =>
      f' ← scan_condition ndebug f cond;
      scan_conditions ndebug f' rest
  end.

(** [swap(op.conditions[0].left, op.conditions[0].right)] *)
Definition swap_operands (c : JoinCondition.t) : JoinCondition.t :=
  {| JoinCondition.left := JoinCondition.right c;
     JoinCondition.right := JoinCondition.left c;
     JoinCondition.comparison := JoinCondition.comparison c;
     JoinCondition.null_values_are_equal := JoinCondition.null_values_are_equal c |}.

Definition swap_first (conds : list JoinCondition.t) : list JoinCondition.t :=
  match conds with
  | c :: rest => swap_operands c :: rest
  | [] => []
  end.

(** [((PhysicalTableScan &)*p).column_ids], read once [p] is known to be
    a table scan. *)
Definition scan_column_ids (p : PhysicalOperator) : list idx_t :=
  match p with
  | Scan tbl_scan => column_ids tbl_scan
  | _ => []
  end.

(** [PhysicalPlanGenerator::CreatePlan(LogicalComparisonJoin &op)], from
    the point where both children have been visited: [lhs_cardinality]
    and [rhs_cardinality] are the estimates of [op.children[0]] and
    [op.children[1]], [left] and [right] their plans. The two [assert]s
    on the children (there are two of them, both plans exist) hold by the
    types of these arguments. The function returns from inside the
    equality branch; [try_right] is what follows the first [if] of that
    branch, [use_hash_join] what follows the second. [op] is consumed:
    [op.conditions] is moved into the operator built, after the swap of
    line 107 in the left-side index join. *)
Definition CreatePlan (ndebug : bool) (context : ClientContext)
    (op : LogicalComparisonJoin)
    (lhs_cardinality rhs_cardinality : idx_t)
    (left right : PhysicalOperator) : Outcome PhysicalOperator :=
  if (length (conditions op) =? 0)%nat then
    (* no conditions: insert a cross product *)
    Returned (PhysicalCrossProduct (types op) left right)
  else
    f ← scan_conditions ndebug no_flags (conditions op);
    if has_equality f then
      let '(left_index, right_index) := TransformIndexJoin context op left right in
      (* equality join: use hash join *)
      let use_hash_join :=
        Returned (PhysicalHashJoin (types op) left right
                    (conditions op) (join_type op)
                    (left_projection_map op) (right_projection_map op)) in
      let try_right :=
        match right_index with
        | Some right_index =>
            if force_index_join context
               || lt_one_percent lhs_cardinality rhs_cardinality
            then
              Returned (PhysicalIndexJoin (types op) left right
                          (conditions op) (join_type op)
                          (left_projection_map op) (right_projection_map op)
                          (scan_column_ids right) right_index true)
            else use_hash_join
        | None => use_hash_join
        end in
      match left_index with
      | Some left_index =>
          if force_index_join context
             || lt_one_percent rhs_cardinality lhs_cardinality
          then
            Returned (PhysicalIndexJoin (types op) right left
                        (swap_first (conditions op)) (join_type op)
                        (right_projection_map op) (left_projection_map op)
                        (scan_column_ids left) left_index false)
          else try_right
      | None => try_right
      end
    else
      (* don't support this for anything but hash joins for now *)
      assert ndebug (negb (has_null_equal_conditions f)) ;;
      if (length (conditions op) =? 1)%nat && negb (has_inequality f) then
        (* range join: use piecewise merge join *)
        Returned (PhysicalPiecewiseMergeJoin (types op) left right
                    (conditions op) (join_type op))
      else
        (* inequality join: use nested loop *)
        Returned (PhysicalNestedLoopJoin (types op) left right
                    (conditions op) (join_type op)).

(* ===================================================================== *)
(** * Vocabulary of the properties *)
(* ===================================================================== *)

Definition is_equal (c : JoinCondition.t) : bool :=
  ExpressionType_eqb (JoinCondition.comparison c) COMPARE_EQUAL.

Definition is_notequal (c : JoinCondition.t) : bool :=
  ExpressionType_eqb (JoinCondition.comparison c) COMPARE_NOTEQUAL.

(** A condition the two [assert]s accept: null-aware only when it is an
    equality. *)
Definition well_formed_condition (c : JoinCondition.t) : bool :=
  implb (JoinCondition.null_values_are_equal c) (is_equal c).

(** The flags the loop computes when no [assert] fires. *)
Definition flags_after (f : CondFlags) (conds : list JoinCondition.t) : CondFlags :=
  {| has_equality := has_equality f || existsb is_equal conds;
     has_inequality := has_inequality f || existsb is_notequal conds;
     has_null_equal_conditions :=
       has_null_equal_conditions f
       || existsb JoinCondition.null_values_are_equal conds |}.

Inductive Side := LeftSide | RightSide.

(** The operand of a condition that belongs to a side of the join. *)
Definition operand (s : Side) (c : JoinCondition.t) : Expression :=
  match s with
  | LeftSide => JoinCondition.left c
  | RightSide => JoinCondition.right c
  end.

(** The number of residual filter predicates attached to a scan. *)
Definition residual_filters (scan : PhysicalTableScan) : nat :=
  match table_filters scan with
  | Some tf => size (filters tf)
  | None => 0
  end.

(** Index-join eligibility of a side in the words of the specification
    (its section 4.1): [child] is the lowered plan of side [s]. *)
Definition SpecEligible (context : ClientContext) (op : LogicalComparisonJoin)
    (s : Side) (child : PhysicalOperator) : Prop :=
  exists cond scan bd,
    conditions op = [cond] /\
    JoinCondition.comparison cond = COMPARE_EQUAL /\
    join_type op = INNER /\
    JoinCondition.null_values_are_equal cond = false /\
    child = Scan scan /\
    bind_data scan = Some (TableScanBind bd) /\
    residual_filters scan = 0%nat /\
    Find (txn_storage (transaction context)) (storage (table bd)) = None /\
    exists index,
      index ∈ indexes (info (storage (table bd))) /\
      alias (unbound_expressions_0 index) = alias (operand s cond).

(** The ratio-or-force test: [force_index_join] is set, or [opposite] is
    below one percent of [indexed] by the comparison [lt_one_percent] of
    the code. *)
Definition ratio_or_force (context : ClientContext)
    (opposite indexed : idx_t) : Prop :=
  force_index_join context = true \/ lt_one_percent opposite indexed = true.

(** The side whose index an index join probes: the index join built on
    the left table's index is the one constructed with
    [lhs_first = false]. *)
Definition probed_side (p : PhysicalOperator) : option Side :=
  match p with
  | PhysicalIndexJoin _ _ _ _ _ _ _ _ _ lhs_first =>
      Some (if lhs_first then RightSide else LeftSide)
  | _ => None
  end.

Definition produces_index_join (o : Outcome PhysicalOperator) (s : Side) : Prop :=
  exists p, o = Returned p /\ probed_side p = Some s.

(** The condition list an operator carries; a cross product has none. *)
Definition extract_conditions (p : PhysicalOperator) : list JoinCondition.t :=
  match p with
  | PhysicalHashJoin _ _ _ cond _ _ _
  | PhysicalIndexJoin _ _ _ cond _ _ _ _ _ _
  | PhysicalPiecewiseMergeJoin _ _ _ cond _
  | PhysicalNestedLoopJoin _ _ _ cond _ => cond
  | _ => []
  end.

(** The condition list with the operand swap of the left-side index join
    reversed. *)
Definition reverse_swap (p : PhysicalOperator) : list JoinCondition.t :=
  match probed_side p with
  | Some LeftSide => swap_first (extract_conditions p)
  | _ => extract_conditions p
  end.

(** The tests of lines 105 and 112, as the code evaluates them. *)
Definition left_fires (context : ClientContext) (op : LogicalComparisonJoin)
    (lhs_cardinality rhs_cardinality : idx_t)
    (left right : PhysicalOperator) : bool :=
  match fst (TransformIndexJoin context op left right) with
  | Some _ =>
      force_index_join context || lt_one_percent rhs_cardinality lhs_cardinality
  | None => false
  end.

Definition right_fires (context : ClientContext) (op : LogicalComparisonJoin)
    (lhs_cardinality rhs_cardinality : idx_t)
    (left right : PhysicalOperator) : bool :=
  match snd (TransformIndexJoin context op left right) with
  | Some _ =>
      force_index_join context || lt_one_percent lhs_cardinality rhs_cardinality
  | None => false
  end.

(* ===================================================================== *)
(** * Concrete scenarios *)
(* ===================================================================== *)

Module Scenario.

Definition A_x : Expression := {| alias := "x"; binding := (0, 0)%N |}.
Definition A_z : Expression := {| alias := "z"; binding := (0, 1)%N |}.
Definition B_y : Expression := {| alias := "y"; binding := (1, 0)%N |}.
Definition B_w : Expression := {| alias := "w"; binding := (1, 1)%N |}.

Definition cmp (l : Expression) (c : ExpressionType) (r : Expression)
    (null_equal : bool) : JoinCondition.t :=
  {| JoinCondition.left := l; JoinCondition.right := r;
     JoinCondition.comparison := c;
     JoinCondition.null_values_are_equal := null_equal |}.

Definition idx_on (e : Expression) : Index :=
  {| unbound_expressions := (e, []) |}.

Definition table_A : TableCatalogEntry :=
  {| storage := {| data_table_addr := 1;
                   info := {| indexes := [idx_on A_z; idx_on A_x] |} |} |}.
Definition table_B : TableCatalogEntry :=
  {| storage := {| data_table_addr := 2;
                   info := {| indexes := [idx_on B_y] |} |} |}.

Definition scan_of (t : TableCatalogEntry) : PhysicalTableScan :=
  {| bind_data := Some (TableScanBind {| table := t |});
     column_ids := [0; 1]%N;
     table_filters := None |}.

Definition scan_A : PhysicalOperator := Scan (scan_of table_A).
Definition scan_B : PhysicalOperator := Scan (scan_of table_B).

Definition no_local : Transaction :=
  {| txn_storage := {| table_storage := ∅ |} |}.
Definition local_on_A : Transaction :=
  {| txn_storage :=
       {| table_storage := {[ 1%positive := {| appended_rows := 1 |} ]} |} |}.

Definition ctx (t : Transaction) (force : bool) : ClientContext :=
  {| transaction := t; force_index_join := force |}.

Definition join (jt : JoinType) (conds : list JoinCondition.t)
  : LogicalComparisonJoin :=
  {| types := [INTEGER; INTEGER]; join_type := jt; conditions := conds;
     left_projection_map := [0]%N; right_projection_map := [1]%N |}.

End Scenario.

(* ===================================================================== *)
(** * Auxiliary notions of the proofs *)
(* ===================================================================== *)

(** One of the two symmetric blocks of [TransformIndexJoin]: [child] is
    [left] or [right], [operand] is [op.conditions[0].left] or
    [op.conditions[0].right]. *)
Definition index_of_child (transaction : Transaction)
    (child : PhysicalOperator) (operand : Expression) : option Index :=
  match child with
  | Scan tbl_scan =>
      let tbl := dynamic_cast_TableScanBindData (bind_data tbl_scan) in
      if can_plan_index_join transaction tbl tbl_scan then
        match tbl with
        | Some tbl => find_index (indexes (info (storage (table tbl)))) (alias operand)
        | None => None
        end
      else None
  | _ => None
  end.

(** The alias the search looks at. *)
Definition first_alias (index : Index) : string :=
  alias (unbound_expressions_0 index).

(** [idx] is the first entry of [l], in list order, whose first
    expression has alias [a]. *)
Definition first_match (l : list Index) (a : string) (idx : Index) : Prop :=
  exists pre post,
    l = pre ++ idx :: post /\
    first_alias idx = a /\
    Forall (fun i => first_alias i <> a) pre.

(** The position at which the search stops. *)
Fixpoint find_position (l : list Index) (a : string) : option nat :=
  match l with
  | [] => None
  | i :: rest =>
      if String.eqb (first_alias i) a then Some 0%nat
      else S <$> find_position rest a
  end.

(** No [assert] of the loop fires on [op]. *)
Definition passes (ndebug : bool) (op : LogicalComparisonJoin) : bool :=
  ndebug || forallb well_formed_condition (conditions op).

Definition index_join_on_left (op : LogicalComparisonJoin)
    (left right : PhysicalOperator) (index : Index) : PhysicalOperator :=
  PhysicalIndexJoin (types op) right left
    (swap_first (conditions op)) (join_type op)
    (right_projection_map op) (left_projection_map op)
    (scan_column_ids left) index false.

Definition index_join_on_right (op : LogicalComparisonJoin)
    (left right : PhysicalOperator) (index : Index) : PhysicalOperator :=
  PhysicalIndexJoin (types op) left right
    (conditions op) (join_type op)
    (left_projection_map op) (right_projection_map op)
    (scan_column_ids right) index true.

Definition hash_join (op : LogicalComparisonJoin)
    (left right : PhysicalOperator) : PhysicalOperator :=
  PhysicalHashJoin (types op) left right (conditions op) (join_type op)
    (left_projection_map op) (right_projection_map op).

(** The lowered plan of a side. *)
Definition child (s : Side) (left right : PhysicalOperator) : PhysicalOperator :=
  match s with LeftSide => left | RightSide => right end.

(** The out-parameter of [TransformIndexJoin] for a side. *)
Definition found_on (s : Side) (found : option Index * option Index)
  : option Index :=
  match s with LeftSide => fst found | RightSide => snd found end.

(** What [TransformIndexJoin] requires of a side to hand out an index. *)
Definition IndexUsable (context : ClientContext) (op : LogicalComparisonJoin)
    (s : Side) (child : PhysicalOperator) : Prop :=
  exists cond scan bd,
    conditions op = [cond] /\
    join_type op = INNER /\
    child = Scan scan /\
    bind_data scan = Some (TableScanBind bd) /\
    residual_filters scan = 0%nat /\
    Find (txn_storage (transaction context)) (storage (table bd)) = None /\
    exists index,
      index ∈ indexes (info (storage (table bd))) /\
      alias (unbound_expressions_0 index) = alias (operand s cond).

(** What [TransformIndexJoin] requires of a side before it searches the
    index list of the side's table: a single condition on an inner join,
    a table scan with the bind data [bd] as the lowered plan [child], no
    filter pushed into the scan, and no row of the table in the local
    storage of the transaction. *)
Definition CanProbe (context : ClientContext) (op : LogicalComparisonJoin)
    (child : PhysicalOperator) (cond : JoinCondition.t)
    (bd : TableScanBindData) : Prop :=
  conditions op = [cond] /\
  join_type op = INNER /\
  exists scan,
    child = Scan scan /\
    bind_data scan = Some (TableScanBind bd) /\
    residual_filters scan = 0%nat /\
    Find (txn_storage (transaction context)) (storage (table bd)) = None.

(** The join [A.x = B.y] of the scenarios. *)
Definition equi_join (null_equal : bool) : LogicalComparisonJoin :=
  Scenario.join INNER
    [Scenario.cmp Scenario.A_x COMPARE_EQUAL Scenario.B_y null_equal].

(** The join [A.x < B.y] with the null-aware flag set. *)
Definition malformed_join : LogicalComparisonJoin :=
  Scenario.join INNER
    [Scenario.cmp Scenario.A_x COMPARE_LESSTHAN Scenario.B_y true].

(** The join [A.x = B.y AND A.z < B.w]. *)
Definition mixed_join : LogicalComparisonJoin :=
  Scenario.join LEFT
    [Scenario.cmp Scenario.A_x COMPARE_EQUAL Scenario.B_y false;
     Scenario.cmp Scenario.A_z COMPARE_LESSTHAN Scenario.B_w false].

(** The join [A.x <> B.y]. *)
Definition notequal_join : LogicalComparisonJoin :=
  Scenario.join INNER
    [Scenario.cmp Scenario.A_x COMPARE_NOTEQUAL Scenario.B_y false].

(** A table with an index on [(z, x)], one on [(x, z)] and one on [x],
    in this order, and its scan. *)
Definition table_C : TableCatalogEntry :=
  {| storage :=
       {| data_table_addr := 3;
          info :=
            {| indexes :=
                 [ {| unbound_expressions := (Scenario.A_z, [Scenario.A_x]) |};
                   {| unbound_expressions := (Scenario.A_x, [Scenario.A_z]) |};
                   Scenario.idx_on Scenario.A_x ] |} |} |}.

Definition scan_C : PhysicalOperator := Scan (Scenario.scan_of table_C).

(* ===================================================================== *)
(** * What a returned operator holds *)
(* ===================================================================== *)

(** The other side of the join. *)
Definition opposite_side (s : Side) : Side :=
  match s with LeftSide => RightSide | RightSide => LeftSide end.

(** The cardinality estimate of a side. *)
Definition cardinality_of (s : Side) (lhs_cardinality rhs_cardinality : idx_t)
  : idx_t :=
  match s with LeftSide => lhs_cardinality | RightSide => rhs_cardinality end.

(** [PhysicalOperator::types] *)
Definition op_types (p : PhysicalOperator) : list LogicalType :=
  match p with
  | Scan _ => []
  | PhysicalFilter tys _
  | PhysicalCrossProduct tys _ _
  | PhysicalHashJoin tys _ _ _ _ _ _
  | PhysicalIndexJoin tys _ _ _ _ _ _ _ _ _
  | PhysicalPiecewiseMergeJoin tys _ _ _ _
  | PhysicalNestedLoopJoin tys _ _ _ _ => tys
  end.

(** [PhysicalOperator::children] *)
Definition op_children (p : PhysicalOperator) : list PhysicalOperator :=
  match p with
  | Scan _ => []
  | PhysicalFilter _ c => [c]
  | PhysicalCrossProduct _ l r
  | PhysicalHashJoin _ l r _ _ _ _
  | PhysicalIndexJoin _ l r _ _ _ _ _ _ _
  | PhysicalPiecewiseMergeJoin _ l r _ _
  | PhysicalNestedLoopJoin _ l r _ _ => [l; r]
  end.

(** The join type a join operator is built with; a cross product has
    none. *)
Definition op_join_type (p : PhysicalOperator) : option JoinType :=
  match p with
  | PhysicalHashJoin _ _ _ _ jt _ _
  | PhysicalIndexJoin _ _ _ _ jt _ _ _ _ _
  | PhysicalPiecewiseMergeJoin _ _ _ _ jt
  | PhysicalNestedLoopJoin _ _ _ _ jt => Some jt
  | _ => None
  end.

(** The two projection maps of a hash join or an index join, in the
    order of the constructor. *)
Definition op_projection_maps (p : PhysicalOperator)
  : option (list idx_t * list idx_t) :=
  match p with
  | PhysicalHashJoin _ _ _ _ _ lpm rpm
  | PhysicalIndexJoin _ _ _ _ _ lpm rpm _ _ _ => Some (lpm, rpm)
  | _ => None
  end.

(* ===================================================================== *)
(** * JSON structure inference *)
(* ===================================================================== *)

(** A shallow embedding of
    [extension/json/json_functions/json_structure.cpp], the function
    [json_structure] up to the serialisation of its result.

    - A [yyjson] value is a tree. [yyjson_val] and [yyjson_mut_val] hold
      the same values, and one type stands for both; the document a
      value is allocated in plays no part.
    - A [const char *] is the string it points to; what the C functions
      read of it stops at the first NUL character ([c_str]).
    - Iterating a value that is not an array (an object) with an array
      (object) iterator yields nothing, as [yyjson_mut_arr_iter_init]
      and [yyjson_mut_obj_iter_init] leave the iterator empty then.
    - The type-name constants of [JSONCommon] and its function
      [ValTypeToString] are defined outside this file: they are the
      fields of the record [JSONCommon].
    - A call returns a value or throws ([Result]).
    - The recursion of [GetConsistentArrayStructure] runs on the children
      of the values it is given; it is written with a bound on the
      nesting depth, which [GetConsistentArrayStructure] sets above the
      depth of its argument. *)
Module JSON.

Inductive yyjson_type :=
| YYJSON_TYPE_NONE
| YYJSON_TYPE_RAW
| YYJSON_TYPE_NULL
| YYJSON_TYPE_BOOL
| YYJSON_TYPE_NUM
| YYJSON_TYPE_STR
| YYJSON_TYPE_ARR
| YYJSON_TYPE_OBJ.

#[global] Instance yyjson_type_eq_dec : EqDecision yyjson_type.
Proof. solve_decision. Defined.

#[warnings="-register-all"]
Inductive yyjson_val :=
| Raw (s : string)
| Null
| Bool (b : bool)
| Uint (n : N)
| Sint (z : Z)
| Real (f : spec_float)
| Str (s : string)
| Arr (elems : list yyjson_val)
| Obj (members : list (string * yyjson_val)).

Abbreviation yyjson_mut_val := yyjson_val (only parsing).

(** [yyjson_get_type], [yyjson_mut_get_type] *)
Definition yyjson_get_type (v : yyjson_val) : yyjson_type :=
  match v with
  | Raw _ => YYJSON_TYPE_RAW
  | Null => YYJSON_TYPE_NULL
  | Bool _ => YYJSON_TYPE_BOOL
  | Uint _ | Sint _ | Real _ => YYJSON_TYPE_NUM
  | Str _ => YYJSON_TYPE_STR
  | Arr _ => YYJSON_TYPE_ARR
  | Obj _ => YYJSON_TYPE_OBJ
  end.

(** [yyjson_mut_get_str]: the characters of a string value, a null
    pointer for any other value. *)
Definition yyjson_mut_get_str (v : yyjson_mut_val) : option string :=
  match v with
  | Str s => Some s
  | _ => None
  end.

(** What a C function reads of a [const char *]: the characters before
    the first NUL. *)
Fixpoint c_str (s : string) : string :=
  match s with
  | EmptyString => EmptyString
  | String c rest =>
      if Ascii.eqb c Ascii.zero then EmptyString else String c (c_str rest)
  end.

(** The elements an array iterator yields. *)
Definition yyjson_mut_arr_iter (v : yyjson_mut_val) : list yyjson_mut_val :=
  match v with
  | Arr elems => elems
  | _ => []
  end.

(** The members an object iterator yields. *)
Definition yyjson_mut_obj_iter (v : yyjson_mut_val)
  : list (string * yyjson_mut_val) :=
  match v with
  | Obj members => members
  | _ => []
  end.

Inductive Exception :=
| InvalidInputException (msg : string)
| InternalException (msg : string)
| AssertionTriggered
| OutOfRange
| NullResult
| DepthExceeded.

Inductive Result (A : Type) :=
| Ok (a : A)
| Throw (e : Exception).
Arguments Ok {A} a.
Arguments Throw {A} e.

#[global] Instance Result_ret : MRet Result := fun _ a => Ok a.

#[global] Instance Result_bind : MBind Result := fun _ _ k m =>
  match m with
  | Ok a => k a
  | Throw e => Throw e
  end.

(** The members of [JSONCommon] this file uses. *)
Record JSONCommon := {
  TYPE_STRING_NULL : string;
  TYPE_STRING_BOOLEAN : string;
  TYPE_STRING_BIGINT : string;
  TYPE_STRING_UBIGINT : string;
  TYPE_STRING_DOUBLE : string;
  TYPE_STRING_VARCHAR : string;
  ValTypeToString : yyjson_val -> Result string
}.

(** [D_ASSERT(b)]: compiled out of a release build. *)
Definition D_ASSERT (ndebug : bool) (b : bool) : Result unit :=
  if ndebug then Ok tt
  else if b then Ok tt else Throw AssertionTriggered.

(** [yyjson_mut_str(doc, str)]: a string value holding the characters of
    [str] up to its NUL; a null pointer when [str] is null, which the
    model reports as [NullResult]. *)
Definition yyjson_mut_str (str : option string) : Result yyjson_mut_val :=
  match str with
  | Some s => Ok (Str (c_str s))
  | None => Throw NullResult
  end.

(** [strcmp(lhs, rhs) == 0] *)
Definition StringEquals (lhs rhs : string) : bool :=
  String.eqb (c_str lhs) (c_str rhs).

Definition EitherEquals (s1 s2 target : string) : bool :=
  StringEquals s1 target || StringEquals s2 target.

(** [GetMaxTypeString]; the out-parameter [result] is returned. *)
Definition GetMaxTypeString (J : JSONCommon) (ndebug : bool)
    (type_string elem_type_string : option string) : Result (option string) :=
  match type_string, elem_type_string with
  | None, _ => Ok elem_type_string
  | Some _, None => Ok type_string
  | Some t, Some e =>
      if StringEquals t e then Ok type_string
      else if EitherEquals t e (TYPE_STRING_VARCHAR J) then
        Ok (Some (TYPE_STRING_VARCHAR J))
      else if EitherEquals t e (TYPE_STRING_DOUBLE J) then
        Ok (Some (TYPE_STRING_DOUBLE J))
      else if EitherEquals t e (TYPE_STRING_BIGINT J) then
        Ok (Some (TYPE_STRING_BIGINT J))
      else if EitherEquals t e (TYPE_STRING_UBIGINT J) then
        Ok (Some (TYPE_STRING_UBIGINT J))
      else
        D_ASSERT ndebug (StringEquals t (TYPE_STRING_BOOLEAN J)
                         && StringEquals e (TYPE_STRING_BOOLEAN J));;
        Ok (Some (TYPE_STRING_BOOLEAN J))
  end.

(** [type_string && strcmp(type_string, TYPE_STRING_NULL) == 0] *)
Definition is_null_type_string (J : JSONCommon) (type_string : option string)
  : bool :=
  match type_string with
  | Some t => StringEquals t (TYPE_STRING_NULL J)
  | None => false
  end.

(** The body of the loop of [GetConsistentArrayStructure] for the
    element [elem], on the variables [type] and [type_string]. *)
Definition consistency_step (J : JSONCommon) (ndebug : bool)
    (st : yyjson_type * option string) (elem : yyjson_mut_val)
  : Result (yyjson_type * option string) :=
  let '(ty, type_string) := st in
  let elem_type := yyjson_get_type elem in
  let elem_type_string := yyjson_mut_get_str elem in
  if is_null_type_string J type_string then
    (* Iterate until we find non-null *)
    Ok (elem_type, elem_type_string)
  else if is_null_type_string J elem_type_string then
    (* Skip over encountered nulls after we found one *)
    Ok (ty, type_string)
  else if negb (bool_decide (ty = elem_type)) then
    Throw (InvalidInputException "Inconsistent JSON structure")
  else
    type_string' ← GetMaxTypeString J ndebug type_string elem_type_string;
    Ok (ty, type_string').

(** [for (idx_t i = 1; i < elem_structures.size(); i++) ...], on the
    elements from position 1 on. *)
Fixpoint consistency_loop (J : JSONCommon) (ndebug : bool)
    (st : yyjson_type * option string) (elems : list yyjson_mut_val)
  : Result (yyjson_type * option string) :=
  match elems with
  | [] => Ok st
  | elem :: rest =>
      st' ← consistency_step J ndebug st elem;
      consistency_loop J ndebug st' rest
  end.

(** [GetConsistentArrayStructureArray], [rec] being
    [GetConsistentArrayStructure]. *)
Definition GetConsistentArrayStructureArray
    (rec : list yyjson_mut_val -> Result yyjson_mut_val)
    (elem_structures : list yyjson_mut_val) : Result yyjson_mut_val :=
  let nested_elem_structures := flat_map yyjson_mut_arr_iter elem_structures in
  v ← rec nested_elem_structures;
  Ok (Arr [v]).

(** The body of the first loop of [GetConsistentArrayStructureObject]
    for one member: [key_insert_order] and [key_values] after it. *)
Definition collect_member
    (st : list string * gmap string (list yyjson_mut_val))
    (member : string * yyjson_mut_val)
  : list string * gmap string (list yyjson_mut_val) :=
  let '(key_insert_order, key_values) := st in
  let key_string := c_str (fst member) in
  let key_insert_order' :=
    match key_values !! key_string with
    | None => key_insert_order ++ [key_string]
    | Some _ => key_insert_order
    end in
  (key_insert_order',
   <[key_string := default [] (key_values !! key_string) ++ [snd member]]>
     key_values).

Definition collect_members (elem_structures : list yyjson_mut_val)
  : list string * gmap string (list yyjson_mut_val) :=
  fold_left collect_member (flat_map yyjson_mut_obj_iter elem_structures)
    ([], ∅).

(** [GetConsistentArrayStructureObject], [rec] being
    [GetConsistentArrayStructure]. *)
Definition GetConsistentArrayStructureObject
    (rec : list yyjson_mut_val -> Result yyjson_mut_val)
    (elem_structures : list yyjson_mut_val) : Result yyjson_mut_val :=
  let '(key_insert_order, key_values) := collect_members elem_structures in
  members ←
    mapM (fun key_string =>
            match key_values !! key_string with
            | Some values =>
                val ← rec values;
                Ok (key_string, val)
            | None => Throw OutOfRange
            end)
      key_insert_order;
  Ok (Obj members).

(** The body of [GetConsistentArrayStructure], [rec] being the function
    itself. *)
Definition GetConsistentArrayStructure_body (J : JSONCommon) (ndebug : bool)
    (rec : list yyjson_mut_val -> Result yyjson_mut_val)
    (elem_structures : list yyjson_mut_val) : Result yyjson_mut_val :=
  match elem_structures with
  | [] => yyjson_mut_str (Some (TYPE_STRING_NULL J))
  | first :: others =>
      '(ty, type_string) ←
        consistency_loop J ndebug
          (yyjson_get_type first, yyjson_mut_get_str first) others;
      match ty with
      | YYJSON_TYPE_ARR =>
          GetConsistentArrayStructureArray rec elem_structures
      | YYJSON_TYPE_OBJ =>
          GetConsistentArrayStructureObject rec elem_structures
      | YYJSON_TYPE_STR => yyjson_mut_str type_string
      | _ =>
          Throw (InternalException
                   "Unexpected JSON type arrived at GetConsistentArrayStructure")
      end
  end.

(** [GetConsistentArrayStructure] on values nested less than [fuel]
    deep. *)
Fixpoint GetConsistentArrayStructure_upto (J : JSONCommon) (ndebug : bool)
    (fuel : nat) (elem_structures : list yyjson_mut_val)
  : Result yyjson_mut_val :=
  match fuel with
  | O => Throw DepthExceeded
  | S fuel' =>
      GetConsistentArrayStructure_body J ndebug
        (GetConsistentArrayStructure_upto J ndebug fuel') elem_structures
  end.

(** The nesting depth of a value. *)
Fixpoint depth (v : yyjson_val) : nat :=
  match v with
  | Arr elems => S (foldr (fun e d => depth e `max` d) 0%nat elems)
  | Obj members => S (foldr (fun m d => depth (snd m) `max` d) 0%nat members)
  | _ => 0%nat
  end.

Definition depth_list (l : list yyjson_val) : nat :=
  foldr (fun e d => depth e `max` d) 0%nat l.

Definition GetConsistentArrayStructure (J : JSONCommon) (ndebug : bool)
    (elem_structures : list yyjson_mut_val) : Result yyjson_mut_val :=
  GetConsistentArrayStructure_upto J ndebug (S (depth_list elem_structures))
    elem_structures.

(** [BuildStructure], with [BuildStructureArray] and
    [BuildStructureObject] in its two first cases. *)
Fixpoint BuildStructure (J : JSONCommon) (ndebug : bool) (val : yyjson_val)
  : Result yyjson_mut_val :=
  match val with
  | Arr elems =>
      elem_structures ← mapM (BuildStructure J ndebug) elems;
      (* Array is consistent if it is empty, or if all its elements have
         the same type (NULL is fine too) *)
      v ← GetConsistentArrayStructure J ndebug elem_structures;
      Ok (Arr [v])
  | Obj members =>
      result ←
        mapM (fun member =>
                v ← BuildStructure J ndebug (snd member);
                Ok (fst member, v))
          members;
      Ok (Obj result)
  | _ =>
      s ← ValTypeToString J val;
      yyjson_mut_str (Some s)
  end.

(** ** Notions of the properties *)

(** The scalar type names in the order in which [GetMaxTypeString] widens them. *)
Definition scalar_type_names (J : JSONCommon) : list string :=
  [TYPE_STRING_BOOLEAN J; TYPE_STRING_UBIGINT J; TYPE_STRING_BIGINT J;
   TYPE_STRING_DOUBLE J; TYPE_STRING_VARCHAR J].

(** The six type names. *)
Definition known_names (J : JSONCommon) : list string :=
  TYPE_STRING_NULL J :: scalar_type_names J.

Definition known_name (J : JSONCommon) (s : string) : Prop :=
  c_str s ∈ c_str <$> known_names J.

#[global] Instance known_name_dec J s : Decision (known_name J s).
Proof. unfold known_name. apply _. Defined.

(** A structure: a type name, an array of structures or an object of
    structures. *)
Fixpoint is_structure (J : JSONCommon) (v : yyjson_val) : bool :=
  match v with
  | Str s => bool_decide (known_name J s)
  | Arr elems => forallb (is_structure J) elems
  | Obj members => forallb (fun m => is_structure J (snd m)) members
  | _ => false
  end.

(** The structure of a JSON null. *)
Definition is_null_structure (J : JSONCommon) (v : yyjson_mut_val) : bool :=
  is_null_type_string J (yyjson_mut_get_str v).

(** None of the five scalar type names is the name of null. *)
Definition null_name_apart (J : JSONCommon) : Prop :=
  c_str (TYPE_STRING_NULL J) ∉ c_str <$> scalar_type_names J.

Definition is_scalar (v : yyjson_val) : Prop :=
  match v with
  | Arr _ | Obj _ => False
  | _ => True
  end.

(** A list without its repetitions, every element at its first place. *)
Fixpoint first_occurrences (l : list string) : list string :=
  match l with
  | [] => []
  | x :: rest => x :: filter (fun y => y <> x) (first_occurrences rest)
  end.

(** All members of the objects of a list, in order. *)
Definition all_members (elems : list yyjson_mut_val)
  : list (string * yyjson_mut_val) :=
  flat_map yyjson_mut_obj_iter elems.

(** The key of a member as [GetConsistentArrayStructureObject] reads it. *)
Definition member_key (m : string * yyjson_mut_val) : string := c_str (fst m).

(** The values stored under the key [k], in order. *)
Definition values_of (k : string) (ms : list (string * yyjson_mut_val))
  : list yyjson_mut_val :=
  snd <$> filter (fun m => member_key m = k) ms.

(** The lists [GetConsistentArrayStructure] recurses on hold children of
    its argument only. *)
Definition child_of (elems : list yyjson_mut_val) (c : yyjson_mut_val) : Prop :=
  exists v, v ∈ elems /\
    (c ∈ yyjson_mut_arr_iter v \/ exists k, (k, c) ∈ yyjson_mut_obj_iter v).

(** [type_string] is a string exactly when [type] is the string type. *)
Definition str_inv (st : yyjson_type * option string) : Prop :=
  is_Some (snd st) <-> fst st = YYJSON_TYPE_STR.

(** [type_string] is null or a known name. *)
Definition known_state (J : JSONCommon) (st : yyjson_type * option string)
  : Prop :=
  match snd st with
  | Some s => known_name J s
  | None => True
  end.

(** [s] is the scalar type name of rank [i]. *)
Definition has_rank (J : JSONCommon) (s : string) (i : nat) : Prop :=
  (c_str <$> scalar_type_names J) !! i = Some (c_str s).

(** A structure as [GetConsistentArrayStructure] returns it: every array
    has one element, the keys of every object are pairwise distinct. *)
Fixpoint is_normal (v : yyjson_val) : bool :=
  match v with
  | Str _ => true
  | Arr elems =>
      bool_decide (length elems = 1%nat) && forallb is_normal elems
  | Obj members =>
      bool_decide (NoDup (fst <$> members))
      && forallb (fun m => is_normal (snd m)) members
  | _ => false
  end.

(** A structure as [BuildStructure] returns it: every array has one
    element, which is as [GetConsistentArrayStructure] returns it. *)
Fixpoint has_merged_arrays (v : yyjson_val) : bool :=
  match v with
  | Str _ => true
  | Arr elems =>
      bool_decide (length elems = 1%nat) && forallb is_normal elems
  | Obj members => forallb (fun m => has_merged_arrays (snd m)) members
  | _ => false
  end.

(** The type names and [ValTypeToString] used in the examples. *)
Definition example_ValTypeToString (v : yyjson_val) : Result string :=
  match v with
  | Null => Ok "NULL"
  | Bool _ => Ok "BOOLEAN"
  | Uint _ => Ok "UBIGINT"
  | Sint _ => Ok "BIGINT"
  | Real _ => Ok "DOUBLE"
  | Str _ => Ok "VARCHAR"
  | Arr _ => Ok "ARRAY"
  | Obj _ => Ok "OBJECT"
  | Raw _ => Throw (InternalException "Unexpected yyjson tag in ValTypeToString")
  end.

Definition example_common : JSONCommon :=
  {| TYPE_STRING_NULL := "NULL";
     TYPE_STRING_BOOLEAN := "BOOLEAN";
     TYPE_STRING_BIGINT := "BIGINT";
     TYPE_STRING_UBIGINT := "UBIGINT";
     TYPE_STRING_DOUBLE := "DOUBLE";
     TYPE_STRING_VARCHAR := "VARCHAR";
     ValTypeToString := example_ValTypeToString |}.

End JSON.

(* ===================================================================== *)
(** * The cardinality test on concrete estimates *)
(* ===================================================================== *)

Example double_0_01_is_1_over_100 :
  SFdiv 53 1024 (double_of_idx 1) (double_of_idx 100) = double_0_01.
Proof. vm_compute. reflexivity. Qed.

Example lt_one_percent_100_of_1000000 : lt_one_percent 100 1000000 = true.
Proof. vm_compute. reflexivity. Qed.

Example lt_one_percent_strict : lt_one_percent 10000 1000000 = false.
Proof. vm_compute. reflexivity. Qed.

Example lt_one_percent_below : lt_one_percent 9999 1000000 = true.
Proof. vm_compute. reflexivity. Qed.

Example lt_one_percent_zero : lt_one_percent 0 0 = false.
Proof. vm_compute. reflexivity. Qed.

(** The test is made on the rounded values: [2^64 - 1] is converted to
    [2^64], and an estimate just below its hundredth is converted to the
    same [double] as that hundredth. *)
Example lt_one_percent_rounds :
  double_of_idx 18446744073709551615 = S754_finite false 4503599627370496 12
  /\ lt_one_percent 184467440737095510 18446744073709551615 = false.
Proof. vm_compute. split; reflexivity. Qed.

(* ===================================================================== *)
(** * The scenarios of the specification *)
(* ===================================================================== *)

Section Scenarios.
Import Scenario.

(** Scenario 1 of the specification. *)
Example no_condition_is_cross_product :
  CreatePlan false (ctx no_local false) (join INNER []) 10 10 scan_A scan_B
  = Returned (PhysicalCrossProduct [INTEGER; INTEGER] scan_A scan_B).
Proof. reflexivity. Qed.

(** Scenario 2. *)
Example small_right_probes_left_index :
  CreatePlan false (ctx no_local false)
    (join INNER [cmp A_x COMPARE_EQUAL B_y false]) 1000000 100 scan_A scan_B
  = Returned (PhysicalIndexJoin [INTEGER; INTEGER] scan_B scan_A
                [cmp B_y COMPARE_EQUAL A_x false] INNER [1]%N [0]%N
                [0; 1]%N (idx_on A_x) false).
Proof. vm_compute. reflexivity. Qed.

(** Scenario 3. *)
Example local_storage_is_hash_join :
  CreatePlan false (ctx local_on_A false)
    (join INNER [cmp A_x COMPARE_EQUAL B_y false]) 1000000 100 scan_A scan_B
  = Returned (PhysicalHashJoin [INTEGER; INTEGER] scan_A scan_B
                [cmp A_x COMPARE_EQUAL B_y false] INNER [0]%N [1]%N).
Proof. vm_compute. reflexivity. Qed.

(** Scenario 4. *)
Example range_is_merge_join :
  CreatePlan false (ctx no_local false)
    (join INNER [cmp A_x COMPARE_LESSTHAN B_y false]) 10 10 scan_A scan_B
  = Returned (PhysicalPiecewiseMergeJoin [INTEGER; INTEGER] scan_A scan_B
                [cmp A_x COMPARE_LESSTHAN B_y false] INNER).
Proof. vm_compute. reflexivity. Qed.

(** Scenario 5. *)
Example two_ranges_is_nested_loop :
  CreatePlan false (ctx no_local false)
    (join INNER [cmp A_x COMPARE_LESSTHAN B_y false;
                 cmp A_z COMPARE_GREATERTHAN B_w false]) 10 10 scan_A scan_B
  = Returned (PhysicalNestedLoopJoin [INTEGER; INTEGER] scan_A scan_B
                [cmp A_x COMPARE_LESSTHAN B_y false;
                 cmp A_z COMPARE_GREATERTHAN B_w false] INNER).
Proof. vm_compute. reflexivity. Qed.

(** The right table's index, when the left table is the small one. *)
Example small_left_probes_right_index :
  CreatePlan false (ctx no_local false)
    (join INNER [cmp A_x COMPARE_EQUAL B_y false]) 100 1000000 scan_A scan_B
  = Returned (PhysicalIndexJoin [INTEGER; INTEGER] scan_A scan_B
                [cmp A_x COMPARE_EQUAL B_y false] INNER [0]%N [1]%N
                [0; 1]%N (idx_on B_y) true).
Proof. vm_compute. reflexivity. Qed.

End Scenarios.

(* ===================================================================== *)
(** * The loop over the conditions *)
(* ===================================================================== *)

Lemma ExpressionType_eqb_eq a b : ExpressionType_eqb a b = true <-> a = b.
Proof. unfold ExpressionType_eqb. apply bool_decide_eq_true. Qed.

Lemma JoinType_eqb_eq a b : JoinType_eqb a b = true <-> a = b.
Proof. unfold JoinType_eqb. apply bool_decide_eq_true. Qed.

Lemma is_equal_true c :
  is_equal c = true <-> JoinCondition.comparison c = COMPARE_EQUAL.
Proof. apply ExpressionType_eqb_eq. Qed.

Lemma is_equal_false c :
  is_equal c = false <-> JoinCondition.comparison c <> COMPARE_EQUAL.
Proof.
  rewrite <- is_equal_true. destruct (is_equal c); split; congruence.
Qed.

Lemma is_notequal_false c :
  is_notequal c = false <-> JoinCondition.comparison c <> COMPARE_NOTEQUAL.
Proof.
  unfold is_notequal. rewrite <- ExpressionType_eqb_eq.
  destruct (ExpressionType_eqb _ _); split; congruence.
Qed.

Lemma scan_condition_spec ndebug f c :
  scan_condition ndebug f c =
  if ndebug || well_formed_condition c
  then Returned (flags_after f [c])
  else AssertionFailed.
Proof.
  unfold scan_condition, well_formed_condition, assert, flags_after.
  fold (is_equal c). fold (is_notequal c).
  destruct f as [he hi hn]; cbn.
  destruct (JoinCondition.null_values_are_equal c), ndebug, (is_equal c),
    (is_notequal c), he, hi, hn; reflexivity.
Qed.

Lemma flags_after_cons f c rest :
  flags_after (flags_after f [c]) rest = flags_after f (c :: rest).
Proof.
  unfold flags_after; cbn. rewrite !orb_false_r, !orb_assoc. reflexivity.
Qed.

(** The loop aborts exactly when assertions are compiled in and some
    condition is null-aware without being an equality; otherwise it
    returns the three disjunctions over the list. *)
Lemma scan_conditions_spec ndebug conds : forall f,
  scan_conditions ndebug f conds =
  if ndebug || forallb well_formed_condition conds
  then Returned (flags_after f conds)
  else AssertionFailed.
Proof.
  induction conds as [|c rest IH]; intros f.
  - cbn. rewrite orb_true_r. destruct f; unfold flags_after; cbn.
    now rewrite !orb_false_r.
  - cbn [scan_conditions forallb]. rewrite scan_condition_spec.
    destruct ndebug; cbn.
    + rewrite IH. cbn. now rewrite flags_after_cons.
    + destruct (well_formed_condition c); cbn; [|reflexivity].
      rewrite IH. cbn. now rewrite flags_after_cons.
Qed.

(** When every condition is well formed and none is an equality, none
    is null-aware: the [assert] of the non-equality branch cannot fire
    after the loop has passed. *)
Lemma no_equality_no_null_equal conds :
  forallb well_formed_condition conds = true ->
  existsb is_equal conds = false ->
  existsb JoinCondition.null_values_are_equal conds = false.
Proof.
  induction conds as [|c rest IH]; cbn; [reflexivity|].
  unfold well_formed_condition at 1.
  destruct (JoinCondition.null_values_are_equal c), (is_equal c); cbn;
    try discriminate; auto.
Qed.

Lemma existsb_is_equal conds :
  existsb is_equal conds = true <->
  exists c, c ∈ conds /\ JoinCondition.comparison c = COMPARE_EQUAL.
Proof.
  rewrite existsb_exists. split; intros (c & Hin & Hc); exists c.
  - split; [now apply list_elem_of_In | now apply is_equal_true].
  - split; [now apply list_elem_of_In | now apply is_equal_true].
Qed.

Lemma forallb_well_formed conds :
  forallb well_formed_condition conds = true <->
  Forall (fun c => JoinCondition.null_values_are_equal c = true ->
                   JoinCondition.comparison c = COMPARE_EQUAL) conds.
Proof.
  rewrite forallb_forall, List.Forall_forall.
  split; intros H c Hin; specialize (H c Hin);
    unfold well_formed_condition in *;
    destruct (JoinCondition.null_values_are_equal c); cbn in *.
  - intros _. now apply is_equal_true.
  - discriminate.
  - apply is_equal_true. now apply H.
  - reflexivity.
Qed.

(* ===================================================================== *)
(** * The search for an index *)
(* ===================================================================== *)

Lemma find_index_Some l a idx :
  find_index l a = Some idx <-> first_match l a idx.
Proof.
  unfold first_match. induction l as [|i rest IH]; cbn.
  - split; [discriminate|]. intros (pre & post & H & _). now destruct pre.
  - fold (first_alias i). destruct (String.eqb_spec (first_alias i) a) as [E|E].
    + split.
      * intros [= <-]. exists [], rest. repeat split; auto.
      * intros (pre & post & H & Ha & Hpre). destruct pre as [|j pre].
        -- now injection H as -> _.
        -- injection H as -> _. now inversion Hpre.
    + rewrite IH. split.
      * intros (pre & post & -> & Ha & Hpre). exists (i :: pre), post.
        repeat split; auto.
      * intros (pre & post & H & Ha & Hpre). destruct pre as [|j pre].
        -- injection H as -> _. contradiction.
        -- injection H as -> ->. exists pre, post. repeat split; auto.
           now inversion Hpre.
Qed.

Lemma find_index_None l a :
  find_index l a = None <-> Forall (fun i => first_alias i <> a) l.
Proof.
  induction l as [|i rest IH]; cbn.
  - split; auto.
  - fold (first_alias i). destruct (String.eqb_spec (first_alias i) a) as [E|E].
    + split; [discriminate|]. intros H. now inversion H.
    + rewrite IH. split.
      * intros H. now constructor.
      * intros H. now inversion H.
Qed.

Lemma find_index_is_Some l a :
  is_Some (find_index l a) <->
  exists index, index ∈ l /\ first_alias index = a.
Proof.
  split.
  - intros [idx H]. apply find_index_Some in H as (pre & post & -> & Ha & _).
    exists idx. split; [|assumption].
    apply list_elem_of_In, in_or_app. right. now left.
  - intros (index & Hin & Ha).
    destruct (find_index l a) eqn:E; [eauto|].
    apply find_index_None in E.
    apply list_elem_of_In in Hin.
    rewrite List.Forall_forall in E. now specialize (E index Hin).
Qed.

Lemma find_index_position l a :
  find_index l a = (find_position l a ≫= fun k => l !! k).
Proof.
  induction l as [|i rest IH]; cbn; [reflexivity|].
  fold (first_alias i). destruct (String.eqb (first_alias i) a); [reflexivity|].
  rewrite IH. now destruct (find_position rest a).
Qed.

(** Two index lists with the same first aliases, position by position,
    are searched alike. *)
Lemma find_position_aliases_only l1 l2 a :
  Forall2 (fun i j => first_alias i = first_alias j) l1 l2 ->
  find_position l1 a = find_position l2 a.
Proof.
  induction 1 as [|i j l1 l2 Hij _ IH]; cbn; [reflexivity|].
  now rewrite Hij, IH.
Qed.

(* ===================================================================== *)
(** * can_plan_index_join and TransformIndexJoin *)
(* ===================================================================== *)

Lemma can_plan_index_join_true transaction tbl scan :
  can_plan_index_join transaction tbl scan = true <->
  exists bd, tbl = Some bd /\
    Find (txn_storage transaction) (storage (table bd)) = None /\
    residual_filters scan = 0%nat.
Proof.
  unfold can_plan_index_join, residual_filters.
  destruct tbl as [bd|].
  - destruct (Find _ _) eqn:EF.
    + split; [discriminate|]. intros (bd' & [= <-] & E & _). congruence.
    + destruct (table_filters scan) as [tf|].
      * destruct (size (filters tf)) eqn:Es; cbn.
        -- split; eauto.
        -- split; [discriminate|]. intros (bd' & _ & _ & E). discriminate.
      * split; eauto.
  - split; [discriminate|]. intros (bd & E & _). discriminate.
Qed.

Lemma type_TABLE_SCAN p :
  type p = TABLE_SCAN <-> exists scan, p = Scan scan.
Proof.
  destruct p; cbn; split; try discriminate; eauto; intros [s H]; discriminate.
Qed.

Lemma dynamic_cast_Some p bd :
  dynamic_cast_TableScanBindData p = Some bd <-> p = Some (TableScanBind bd).
Proof.
  destruct p as [[bd'|]|]; cbn; split; congruence.
Qed.

(** One block of [TransformIndexJoin] finds an index exactly on a bare
    table scan without filters, whose table has no transaction-local
    storage, and the index is the first alias match of the table's
    list. *)
Lemma index_of_child_Some transaction child e idx :
  index_of_child transaction child e = Some idx <->
  exists scan bd,
    child = Scan scan /\
    bind_data scan = Some (TableScanBind bd) /\
    residual_filters scan = 0%nat /\
    Find (txn_storage transaction) (storage (table bd)) = None /\
    find_index (indexes (info (storage (table bd)))) (alias e) = Some idx.
Proof.
  unfold index_of_child. split.
  - destruct child as [scan| | | | | |]; try discriminate.
    destruct (can_plan_index_join _ _ _) eqn:Ec; [|discriminate].
    apply can_plan_index_join_true in Ec as (bd & Ebd & EF & Er).
    rewrite Ebd. intros H. exists scan, bd.
    apply dynamic_cast_Some in Ebd. auto 6.
  - intros (scan & bd & -> & Ebd & Er & EF & H).
    apply dynamic_cast_Some in Ebd.
    assert (Ec : can_plan_index_join transaction
                   (dynamic_cast_TableScanBindData (bind_data scan)) scan = true)
      by (apply can_plan_index_join_true; eauto).
    now rewrite Ec, Ebd.
Qed.

Lemma TransformIndexJoin_single context op left right cond :
  conditions op = [cond] ->
  join_type op = INNER ->
  TransformIndexJoin context op left right =
  (index_of_child (transaction context) left (JoinCondition.left cond),
   index_of_child (transaction context) right (JoinCondition.right cond)).
Proof.
  intros Hc Hj. unfold TransformIndexJoin, GetTransaction.
  now rewrite Hc, Hj.
Qed.

(** Outside single-condition inner joins no index is looked for. *)
Lemma TransformIndexJoin_Some context op left right :
  fst (TransformIndexJoin context op left right) <> None \/
  snd (TransformIndexJoin context op left right) <> None ->
  join_type op = INNER /\ exists cond, conditions op = [cond].
Proof.
  unfold TransformIndexJoin.
  destruct (JoinType_eqb (join_type op) INNER) eqn:Ej; cbn.
  - apply JoinType_eqb_eq in Ej.
    destruct (conditions op) as [|c [|c' rest]]; cbn; intros [H|H];
      try congruence; eauto.
  - intros [H|H]; congruence.
Qed.

(* ===================================================================== *)
(** * The branches of CreatePlan *)
(* ===================================================================== *)

Section Branches.
Variable ndebug : bool.
Variable context : ClientContext.
Variable op : LogicalComparisonJoin.
Variables lhs_cardinality rhs_cardinality : idx_t.
Variables left right : PhysicalOperator.

Let plan := CreatePlan ndebug context op lhs_cardinality rhs_cardinality left right.
Let found := TransformIndexJoin context op left right.

Lemma CreatePlan_empty :
  conditions op = [] ->
  plan = Returned (PhysicalCrossProduct (types op) left right).
Proof. intros H. subst plan. unfold CreatePlan. now rewrite H. Qed.

Lemma CreatePlan_aborts :
  conditions op <> [] ->
  passes ndebug op = false ->
  plan = AssertionFailed.
Proof.
  intros Hne Hp. subst plan. unfold CreatePlan, passes in *.
  destruct (conditions op) as [|c rest] eqn:E; [congruence|].
  cbn [length Nat.eqb]. rewrite scan_conditions_spec, Hp. reflexivity.
Qed.

Lemma CreatePlan_left_index index :
  passes ndebug op = true ->
  existsb is_equal (conditions op) = true ->
  fst found = Some index ->
  force_index_join context
    || lt_one_percent rhs_cardinality lhs_cardinality = true ->
  plan = Returned (index_join_on_left op left right index).
Proof.
  intros Hp He Hf Ht. subst plan found. unfold CreatePlan, passes in *.
  destruct (conditions op) as [|c rest] eqn:E; [discriminate|].
  cbn [length Nat.eqb]. rewrite scan_conditions_spec, Hp.
  cbn [mbind Outcome_bind flags_after has_equality no_flags orb].
  rewrite He. destruct (TransformIndexJoin _ _ _ _) as [li ri].
  cbn in Hf. subst li. rewrite Ht.
  unfold index_join_on_left. now rewrite E.
Qed.

Lemma CreatePlan_right_index index :
  passes ndebug op = true ->
  existsb is_equal (conditions op) = true ->
  left_fires context op lhs_cardinality rhs_cardinality left right = false ->
  snd found = Some index ->
  force_index_join context
    || lt_one_percent lhs_cardinality rhs_cardinality = true ->
  plan = Returned (index_join_on_right op left right index).
Proof.
  intros Hp He Hl Hf Ht. subst plan found.
  unfold CreatePlan, passes, left_fires in *.
  destruct (conditions op) as [|c rest] eqn:E; [discriminate|].
  cbn [length Nat.eqb]. rewrite scan_conditions_spec, Hp.
  cbn [mbind Outcome_bind flags_after has_equality no_flags orb].
  rewrite He. destruct (TransformIndexJoin _ _ _ _) as [li ri].
  cbn in Hf, Hl. subst ri. rewrite Ht.
  unfold index_join_on_right. rewrite E.
  destruct li; [now rewrite Hl|reflexivity].
Qed.

Lemma CreatePlan_hash_join :
  passes ndebug op = true ->
  existsb is_equal (conditions op) = true ->
  left_fires context op lhs_cardinality rhs_cardinality left right = false ->
  right_fires context op lhs_cardinality rhs_cardinality left right = false ->
  plan = Returned (hash_join op left right).
Proof.
  intros Hp He Hl Hr. subst plan.
  unfold CreatePlan, passes, left_fires, right_fires in *.
  destruct (conditions op) as [|c rest] eqn:E; [discriminate|].
  cbn [length Nat.eqb]. rewrite scan_conditions_spec, Hp.
  cbn [mbind Outcome_bind flags_after has_equality no_flags orb].
  rewrite He. destruct (TransformIndexJoin _ _ _ _) as [li ri].
  cbn in Hl, Hr. unfold hash_join. rewrite E.
  destruct li, ri; rewrite ?Hl, ?Hr; reflexivity.
Qed.

Lemma CreatePlan_no_equality :
  conditions op <> [] ->
  passes ndebug op = true ->
  existsb is_equal (conditions op) = false ->
  plan =
  Returned
    (if (length (conditions op) =? 1)%nat
        && negb (existsb is_notequal (conditions op))
     then PhysicalPiecewiseMergeJoin (types op) left right
            (conditions op) (join_type op)
     else PhysicalNestedLoopJoin (types op) left right
            (conditions op) (join_type op)).
Proof.
  intros Hne Hp He. subst plan. unfold CreatePlan, passes in *.
  destruct (conditions op) as [|c rest] eqn:E; [congruence|].
  cbn [length Nat.eqb]. rewrite scan_conditions_spec, Hp.
  cbn [mbind Outcome_bind flags_after has_equality has_inequality
       has_null_equal_conditions no_flags orb].
  rewrite He. unfold assert.
  destruct ndebug; cbn [orb] in Hp.
  - cbn [mbind Outcome_bind]. now destruct (_ && _).
  - rewrite (no_equality_no_null_equal _ Hp He).
    cbn [negb mbind Outcome_bind]. now destruct (_ && _).
Qed.

(** Every operator [CreatePlan] returns is built by one of its five
    [return] statements. *)
Lemma CreatePlan_Returned p :
  plan = Returned p ->
  (conditions op = [] /\ p = PhysicalCrossProduct (types op) left right)
  \/ (exists index, fst found = Some index /\
        existsb is_equal (conditions op) = true /\
        left_fires context op lhs_cardinality rhs_cardinality left right = true /\
        p = index_join_on_left op left right index)
  \/ (exists index, snd found = Some index /\
        existsb is_equal (conditions op) = true /\
        left_fires context op lhs_cardinality rhs_cardinality left right = false /\
        right_fires context op lhs_cardinality rhs_cardinality left right = true /\
        p = index_join_on_right op left right index)
  \/ (existsb is_equal (conditions op) = true /\
        left_fires context op lhs_cardinality rhs_cardinality left right = false /\
        right_fires context op lhs_cardinality rhs_cardinality left right = false /\
        p = hash_join op left right)
  \/ (existsb is_equal (conditions op) = false /\
        (p = PhysicalPiecewiseMergeJoin (types op) left right
               (conditions op) (join_type op)
         \/ p = PhysicalNestedLoopJoin (types op) left right
               (conditions op) (join_type op))).
Proof.
  intros H.
  destruct (conditions op) as [|c rest] eqn:E.
  { left. split; [reflexivity|].
    rewrite CreatePlan_empty in H by assumption. congruence. }
  assert (Hne : conditions op <> []) by congruence. rewrite <- E.
  destruct (passes ndebug op) eqn:Hp.
  2:{ rewrite CreatePlan_aborts in H by assumption. discriminate. }
  destruct (existsb is_equal (conditions op)) eqn:He.
  2:{ do 4 right. split; [reflexivity|].
      rewrite CreatePlan_no_equality in H by assumption.
      injection H as <-. destruct (_ && _); auto. }
  destruct (left_fires context op lhs_cardinality rhs_cardinality left right)
    eqn:Hl.
  { right; left. pose proof Hl as Hl'. unfold left_fires in Hl'.
    fold found in Hl'. destruct (fst found) as [index|] eqn:Ef; [|discriminate].
    exists index. rewrite (CreatePlan_left_index index) in H by assumption.
    injection H as <-. auto. }
  destruct (right_fires context op lhs_cardinality rhs_cardinality left right)
    eqn:Hr.
  { do 2 right; left. pose proof Hr as Hr'. unfold right_fires in Hr'.
    fold found in Hr'. destruct (snd found) as [index|] eqn:Ef; [|discriminate].
    exists index. rewrite (CreatePlan_right_index index) in H by assumption.
    injection H as <-. auto. }
  do 3 right; left.
  rewrite CreatePlan_hash_join in H by assumption.
  injection H as <-. auto.
Qed.

End Branches.

(* ===================================================================== *)
(** * From the tests of the code to the words of the specification *)
(* ===================================================================== *)

Lemma found_on_single context op left right cond s :
  conditions op = [cond] ->
  join_type op = INNER ->
  found_on s (TransformIndexJoin context op left right) =
  index_of_child (transaction context) (child s left right) (operand s cond).
Proof.
  intros Hc Hj. rewrite (TransformIndexJoin_single _ _ _ _ _ Hc Hj).
  now destruct s.
Qed.

Lemma found_on_usable context op left right s :
  is_Some (found_on s (TransformIndexJoin context op left right)) <->
  IndexUsable context op s (child s left right).
Proof.
  split.
  - intros [idx H].
    destruct (TransformIndexJoin_Some context op left right) as (Hj & cond & Hc).
    { destruct s; cbn in H; [left|right]; congruence. }
    rewrite (found_on_single _ _ _ _ _ _ Hc Hj) in H.
    apply index_of_child_Some in H as (scan & bd & Hs & Hb & Hr & HF & Hi).
    exists cond, scan, bd. repeat (split; [assumption|]).
    apply find_index_is_Some. eauto.
  - intros (cond & scan & bd & Hc & Hj & Hs & Hb & Hr & HF & Hi).
    rewrite (found_on_single _ _ _ _ _ _ Hc Hj).
    apply find_index_is_Some in Hi as [idx Hi].
    exists idx. apply index_of_child_Some. exists scan, bd. auto.
Qed.

Lemma SpecEligible_usable context op s c :
  SpecEligible context op s c <->
  IndexUsable context op s c /\
  exists cond, conditions op = [cond] /\
    JoinCondition.comparison cond = COMPARE_EQUAL /\
    JoinCondition.null_values_are_equal cond = false.
Proof.
  split.
  - intros (cond & scan & bd & Hc & He & Hj & Hn & Hs & Hb & Hr & HF & Hi).
    split; [exists cond, scan, bd; auto 10 | exists cond; auto].
  - intros [(cond & scan & bd & Hc & Hj & Hs & Hb & Hr & HF & Hi)
            (cond' & Hc' & He & Hn)].
    assert (cond' = cond) as -> by congruence.
    exists cond, scan, bd. auto 10.
Qed.

Lemma ratio_or_force_orb context a b :
  ratio_or_force context a b <->
  force_index_join context || lt_one_percent a b = true.
Proof. unfold ratio_or_force. now rewrite orb_true_iff. Qed.

Lemma left_fires_iff context op lc rc left right :
  left_fires context op lc rc left right = true <->
  IndexUsable context op LeftSide left /\ ratio_or_force context rc lc.
Proof.
  rewrite <- (found_on_usable context op left right LeftSide),
    ratio_or_force_orb.
  unfold left_fires; cbn [found_on].
  destruct (fst _); split.
  - intros H; split; [eauto | assumption].
  - now intros [_ H].
  - discriminate.
  - intros [[x Hx] _]. discriminate.
Qed.

Lemma right_fires_iff context op lc rc left right :
  right_fires context op lc rc left right = true <->
  IndexUsable context op RightSide right /\ ratio_or_force context lc rc.
Proof.
  rewrite <- (found_on_usable context op left right RightSide),
    ratio_or_force_orb.
  unfold right_fires; cbn [found_on].
  destruct (snd _); split.
  - intros H; split; [eauto | assumption].
  - now intros [_ H].
  - discriminate.
  - intros [[x Hx] _]. discriminate.
Qed.

Lemma swap_operands_involutive c : swap_operands (swap_operands c) = c.
Proof. now destruct c. Qed.

Lemma swap_first_involutive conds : swap_first (swap_first conds) = conds.
Proof.
  destruct conds as [|c rest]; cbn; [reflexivity|].
  now rewrite swap_operands_involutive.
Qed.

Lemma existsb_is_equal_single c :
  existsb is_equal [c] = true <-> JoinCondition.comparison c = COMPARE_EQUAL.
Proof. cbn. rewrite orb_false_r. apply is_equal_true. Qed.

Lemma passes_no_null_equal ndebug op :
  Forall (fun c => JoinCondition.null_values_are_equal c = false) (conditions op) ->
  passes ndebug op = true.
Proof.
  intros H. unfold passes. apply orb_true_iff. right.
  apply forallb_forall. rewrite List.Forall_forall in H.
  intros c Hin. unfold well_formed_condition. now rewrite (H c Hin).
Qed.

(** On a scan that can be probed, a block of [TransformIndexJoin] is the
    search of the table's index list. *)
Lemma index_of_child_probed transaction child e scan bd :
  child = Scan scan ->
  bind_data scan = Some (TableScanBind bd) ->
  residual_filters scan = 0%nat ->
  Find (txn_storage transaction) (storage (table bd)) = None ->
  index_of_child transaction child e
  = find_index (indexes (info (storage (table bd)))) (alias e).
Proof.
  intros -> Hb Hr Hf. unfold index_of_child. rewrite Hb.
  cbn [dynamic_cast_TableScanBindData].
  rewrite (proj2 (can_plan_index_join_true transaction (Some bd) scan));
    [reflexivity|].
  exists bd. auto.
Qed.

Lemma found_on_probed context op left right s cond bd :
  CanProbe context op (child s left right) cond bd ->
  found_on s (TransformIndexJoin context op left right)
  = find_index (indexes (info (storage (table bd)))) (alias (operand s cond)).
Proof.
  intros (Hc & Hj & scan & Hs & Hb & Hr & Hf).
  rewrite (found_on_single _ _ _ _ _ _ Hc Hj).
  now apply (index_of_child_probed _ _ _ scan).
Qed.

(* ===================================================================== *)
(** * Properties of the selection *)
(* ===================================================================== *)

(** C6. A join node whose condition list is empty is planned as a cross
    product of its two children, whatever the join kind, the
    cardinalities, the indexes, the transaction and the build. *)
Theorem cross_product_on_no_condition
    ndebug context op lhs_cardinality rhs_cardinality left right :
  conditions op = [] ->
  CreatePlan ndebug context op lhs_cardinality rhs_cardinality left right
  = Returned (PhysicalCrossProduct (types op) left right).
Proof. apply CreatePlan_empty. Qed.

(** C3, amended. When the left side is eligible for an index join and the
    force flag is set or the test of line 105 holds, which is the
    comparison [rhs_cardinality < 0.01 * lhs_cardinality] of the two
    estimates in double precision, the plan is an index join on the first
    alias-matching index of the left table: the right plan is its first
    child and the left scan its second, its single condition is the
    node's with the left operand in the place of the right one and the
    right operand in the place of the left one, comparison and null flag
    as they were, its projection maps are the node's right one followed
    by the left one, and it probes through the column ids of the left
    scan. *)
Theorem left_index_join
    ndebug context op lhs_cardinality rhs_cardinality left right :
  SpecEligible context op LeftSide left ->
  (force_index_join context = true \/
   lt_one_percent rhs_cardinality lhs_cardinality = true) ->
  exists cond scan bd index,
    conditions op = [cond] /\
    left = Scan scan /\
    bind_data scan = Some (TableScanBind bd) /\
    first_match (indexes (info (storage (table bd))))
      (alias (JoinCondition.left cond)) index /\
    CreatePlan ndebug context op lhs_cardinality rhs_cardinality left right
    = Returned (PhysicalIndexJoin (types op) right left
                  [ {| JoinCondition.left := JoinCondition.right cond;
                       JoinCondition.right := JoinCondition.left cond;
                       JoinCondition.comparison :=
                         JoinCondition.comparison cond;
                       JoinCondition.null_values_are_equal :=
                         JoinCondition.null_values_are_equal cond |} ]
                  (join_type op)
                  (right_projection_map op) (left_projection_map op)
                  (column_ids scan) index false).
Proof.
  intros HE Hr.
  pose proof HE as (cond & scan & bd & Hc & He & Hj & Hn & Hs & Hb & _).
  apply SpecEligible_usable in HE as [HU _].
  apply (found_on_usable context op left right LeftSide) in HU as [index Hi].
  pose proof Hi as Hi'.
  rewrite (found_on_single _ _ _ _ _ _ Hc Hj) in Hi'.
  apply index_of_child_Some in Hi' as (scan' & bd' & Hs' & Hb' & _ & _ & Hf).
  cbn [child] in Hs'. assert (scan' = scan) as -> by congruence.
  assert (bd' = bd) as -> by congruence.
  exists cond, scan, bd, index. repeat (split; [assumption|]).
  split; [now apply find_index_Some|].
  rewrite (CreatePlan_left_index _ _ _ _ _ _ _ index).
  - unfold index_join_on_left. now rewrite Hc, Hs.
  - apply passes_no_null_equal. rewrite Hc. now repeat constructor.
  - rewrite Hc. now apply existsb_is_equal_single.
  - exact Hi.
  - now apply ratio_or_force_orb.
Qed.

(** C4. When both sides are eligible and the left side passes its
    ratio-or-force test, the plan is the index join on the left table's
    index, the first alias match of the left table's list: neither the
    right table's index nor the test of the left cardinality against the
    right one has a say. And whenever the plan is an index join on the
    right table's index, the left side had no index to offer or failed
    its test. *)
Theorem left_index_has_precedence
    ndebug context op lhs_cardinality rhs_cardinality left right :
  (SpecEligible context op LeftSide left ->
   SpecEligible context op RightSide right ->
   ratio_or_force context rhs_cardinality lhs_cardinality ->
   exists cond scan bd index,
     conditions op = [cond] /\
     left = Scan scan /\
     bind_data scan = Some (TableScanBind bd) /\
     find_index (indexes (info (storage (table bd))))
       (alias (JoinCondition.left cond)) = Some index /\
     CreatePlan ndebug context op lhs_cardinality rhs_cardinality left right
     = Returned (index_join_on_left op left right index))
  /\
  (forall p,
     CreatePlan ndebug context op lhs_cardinality rhs_cardinality left right
     = Returned p ->
     probed_side p = Some RightSide ->
     ~ (IndexUsable context op LeftSide left /\
        ratio_or_force context rhs_cardinality lhs_cardinality)).
Proof.
  split.
  - intros HL _ Hr.
    pose proof HL as (cond & scan & bd & Hc & He & Hj & Hn & Hs & Hb & _).
    apply SpecEligible_usable in HL as [HU _].
    apply (found_on_usable context op left right LeftSide) in HU as [index Hi].
    pose proof Hi as Hi'.
    rewrite (found_on_single _ _ _ _ _ _ Hc Hj) in Hi'.
    apply index_of_child_Some in Hi' as (scan' & bd' & Hs' & Hb' & _ & _ & Hf).
    cbn [child] in Hs'. assert (scan' = scan) as -> by congruence.
    assert (bd' = bd) as -> by congruence.
    exists cond, scan, bd, index. repeat (split; [assumption|]).
    apply CreatePlan_left_index.
    + apply passes_no_null_equal. rewrite Hc. now repeat constructor.
    + rewrite Hc. now apply existsb_is_equal_single.
    + exact Hi.
    + now apply ratio_or_force_orb.
  - intros p Hp Hs Hleft.
    apply (proj2 (left_fires_iff context op lhs_cardinality rhs_cardinality
                    left right)) in Hleft.
    apply CreatePlan_Returned in Hp
      as [[_ ->]|[(i & _ & _ & _ & ->)|[(i & _ & _ & Hl & _)
         |[(_ & _ & _ & ->)|(_ & [-> | ->])]]]];
      cbn in Hs; congruence.
Qed.

(** C9. For every operator the selection returns, the condition list it
    carries, with the operand swap of the left-side index join reversed,
    is the condition list of the logical join node. *)
Theorem conditions_round_trip
    ndebug context op lhs_cardinality rhs_cardinality left right p :
  CreatePlan ndebug context op lhs_cardinality rhs_cardinality left right
  = Returned p ->
  reverse_swap p = conditions op.
Proof.
  intros Hp.
  apply CreatePlan_Returned in Hp
    as [[Hc ->]|[(i & _ & _ & _ & ->)|[(i & _ & _ & _ & _ & ->)
       |[(_ & _ & _ & ->)|(_ & [-> | ->])]]]];
    cbn; auto using swap_first_involutive.
Qed.

(** C2, amended. On a join node none of whose conditions is null-aware,
    an index join on the left table's index is planned exactly when the
    left side is eligible and passes its ratio-or-force test, and an
    index join on the right table's index is planned exactly when the
    right side is eligible and passes its test while the left side does
    not take precedence. *)
Theorem index_join_iff_eligible
    ndebug context op lhs_cardinality rhs_cardinality left right :
  Forall (fun c => JoinCondition.null_values_are_equal c = false)
    (conditions op) ->
  (produces_index_join
     (CreatePlan ndebug context op lhs_cardinality rhs_cardinality left right)
     LeftSide
   <->
   SpecEligible context op LeftSide left /\
   ratio_or_force context rhs_cardinality lhs_cardinality)
  /\
  (produces_index_join
     (CreatePlan ndebug context op lhs_cardinality rhs_cardinality left right)
     RightSide
   <->
   (SpecEligible context op RightSide right /\
    ratio_or_force context lhs_cardinality rhs_cardinality) /\
   ~ (SpecEligible context op LeftSide left /\
      ratio_or_force context rhs_cardinality lhs_cardinality)).
Proof.
  intros Hnull.
  pose proof (passes_no_null_equal ndebug op Hnull) as Hpass.
  (* on such a node, eligibility is what [TransformIndexJoin] tests plus
     the equality found by the loop *)
  assert (Helig : forall s c,
            IndexUsable context op s c ->
            existsb is_equal (conditions op) = true ->
            SpecEligible context op s c).
  { intros s c HU He. apply SpecEligible_usable. split; [assumption|].
    destruct HU as (cond & _ & _ & Hc & _). exists cond.
    rewrite Hc in He, Hnull. apply existsb_is_equal_single in He.
    inversion Hnull; subst. auto. }
  assert (Hequal : forall s c,
            SpecEligible context op s c ->
            existsb is_equal (conditions op) = true).
  { intros s c (cond & _ & _ & Hc & He & _). rewrite Hc.
    now apply existsb_is_equal_single. }
  split; split.
  - intros (p & Hp & Hs).
    apply CreatePlan_Returned in Hp
      as [[_ ->]|[(i & _ & He & Hl & ->)|[(i & _ & _ & _ & _ & ->)
         |[(_ & _ & _ & ->)|(_ & [-> | ->])]]]];
      cbn in Hs; try congruence.
    apply left_fires_iff in Hl as [HU Hr]. auto.
  - intros [HE Hr].
    pose proof (Hequal _ _ HE) as He.
    apply SpecEligible_usable in HE as [HU _].
    apply (found_on_usable context op left right LeftSide) in HU as [index Hi].
    exists (index_join_on_left op left right index). split; [|reflexivity].
    apply CreatePlan_left_index; auto. now apply ratio_or_force_orb.
  - intros (p & Hp & Hs).
    apply CreatePlan_Returned in Hp
      as [[_ ->]|[(i & _ & _ & _ & ->)|[(i & _ & He & Hl & Hr & ->)
         |[(_ & _ & _ & ->)|(_ & [-> | ->])]]]];
      cbn in Hs; try congruence.
    apply right_fires_iff in Hr as [HU Hr]. split; [auto|].
    intros [HE' Hr']. apply SpecEligible_usable in HE' as [HU' _].
    assert (left_fires context op lhs_cardinality rhs_cardinality left right
            = true) by (apply left_fires_iff; auto).
    congruence.
  - intros [[HE Hr] Hnot].
    pose proof (Hequal _ _ HE) as He.
    apply SpecEligible_usable in HE as [HU _].
    apply (found_on_usable context op left right RightSide) in HU as [index Hi].
    exists (index_join_on_right op left right index). split; [|reflexivity].
    apply CreatePlan_right_index; auto.
    + destruct (left_fires _ _ _ _ _ _) eqn:Hl; [|reflexivity].
      apply left_fires_iff in Hl as [HU' Hr']. exfalso. apply Hnot. auto.
    + now apply ratio_or_force_orb.
Qed.

(** C5, amended. In a build with assertions (no [NDEBUG]), a join node
    that contains a condition which is null-aware without being an
    equality makes plan construction abort: no operator is returned. *)
Theorem malformed_null_equal_aborts
    context op lhs_cardinality rhs_cardinality left right c :
  c ∈ conditions op ->
  JoinCondition.null_values_are_equal c = true ->
  JoinCondition.comparison c <> COMPARE_EQUAL ->
  CreatePlan false context op lhs_cardinality rhs_cardinality left right
  = AssertionFailed.
Proof.
  intros Hin Hn Hc. apply CreatePlan_aborts.
  - intros E. rewrite E in Hin. now apply not_elem_of_nil in Hin.
  - unfold passes. cbn [orb].
    destruct (forallb _ _) eqn:E; [|reflexivity].
    rewrite forallb_forall in E. apply list_elem_of_In in Hin.
    specialize (E c Hin). unfold well_formed_condition in E.
    rewrite Hn in E. cbn in E. now apply is_equal_true in E.
Qed.

(** With [NDEBUG] the selection is total: every join node gets an
    operator. *)
Lemma CreatePlan_ndebug_returns
    context op lhs_cardinality rhs_cardinality left right :
  exists p,
    CreatePlan true context op lhs_cardinality rhs_cardinality left right
    = Returned p.
Proof.
  destruct (conditions op) as [|c rest] eqn:E.
  { eexists. now apply CreatePlan_empty. }
  assert (Hne : conditions op <> []) by congruence.
  assert (Hp : passes true op = true) by reflexivity.
  destruct (existsb is_equal (conditions op)) eqn:He.
  2:{ eexists. now apply CreatePlan_no_equality. }
  destruct (left_fires context op lhs_cardinality rhs_cardinality left right)
    eqn:Hl.
  { pose proof Hl as Hl'. unfold left_fires in Hl'.
    destruct (fst _) as [index|] eqn:Ef; [|discriminate].
    eexists. now apply (CreatePlan_left_index _ _ _ _ _ _ _ index). }
  destruct (right_fires context op lhs_cardinality rhs_cardinality left right)
    eqn:Hr.
  { pose proof Hr as Hr'. unfold right_fires in Hr'.
    destruct (snd _) as [index|] eqn:Ef; [|discriminate].
    eexists. now apply (CreatePlan_right_index _ _ _ _ _ _ _ index). }
  eexists. now apply CreatePlan_hash_join.
Qed.

(** C7. On a join node with at least one equality condition on which
    neither index test fires, the plan is a hash join carrying the node's
    condition list and its two projection maps unchanged, in the same
    order. The node is one of the data model, on which a null-aware
    condition is an equality; in a build with [NDEBUG] any node will
    do. *)
Theorem hash_join_keeps_conditions
    ndebug context op lhs_cardinality rhs_cardinality left right :
  (exists c, c ∈ conditions op /\ JoinCondition.comparison c = COMPARE_EQUAL) ->
  (ndebug = true \/
   Forall (fun c => JoinCondition.null_values_are_equal c = true ->
                    JoinCondition.comparison c = COMPARE_EQUAL)
     (conditions op)) ->
  left_fires context op lhs_cardinality rhs_cardinality left right = false ->
  right_fires context op lhs_cardinality rhs_cardinality left right = false ->
  CreatePlan ndebug context op lhs_cardinality rhs_cardinality left right
  = Returned (PhysicalHashJoin (types op) left right
                (conditions op) (join_type op)
                (left_projection_map op) (right_projection_map op)).
Proof.
  intros He Hwf Hl Hr. apply CreatePlan_hash_join; auto.
  - unfold passes. apply orb_true_iff.
    destruct Hwf as [->|Hwf]; [now left|right].
    now apply forallb_well_formed.
  - now apply existsb_is_equal.
Qed.

(** C8, amended. A join node with exactly one condition whose comparison
    is neither equality nor not-equal, and on which no [assert] fires
    (the condition is not null-aware, or the build has [NDEBUG]), is
    planned as a piecewise merge join. *)
Theorem merge_join_on_single_range
    ndebug context op lhs_cardinality rhs_cardinality left right c :
  conditions op = [c] ->
  JoinCondition.comparison c <> COMPARE_EQUAL ->
  JoinCondition.comparison c <> COMPARE_NOTEQUAL ->
  (ndebug = true \/ JoinCondition.null_values_are_equal c = false) ->
  CreatePlan ndebug context op lhs_cardinality rhs_cardinality left right
  = Returned (PhysicalPiecewiseMergeJoin (types op) left right
                [c] (join_type op)).
Proof.
  intros Hc He Hi Hwf.
  apply is_equal_false in He. apply is_notequal_false in Hi.
  rewrite CreatePlan_no_equality; rewrite ?Hc; cbn.
  - now rewrite Hi.
  - discriminate.
  - unfold passes. rewrite Hc. cbn. unfold well_formed_condition.
    destruct Hwf as [->| ->]; [reflexivity|]. now rewrite orb_true_r.
  - now rewrite He.
Qed.

(** C10. [TransformIndexJoin] selects an index by the alias of its first
    expression alone, and takes the first match in list order.
    - An index handed out for a side is the first entry, in list order,
      of the index list of that side's table whose first expression
      carries the alias of that side's operand.
    - On a side that can be probed (a single condition on an inner join,
      a table scan without pushed-down filter on a table without local
      rows), what is handed out is the result of the search: the first
      such entry when there is one, and nothing exactly when no entry of
      the list has that alias on its first expression; it is the entry
      at the position where a scan of the first aliases stops.
    - The search reads nothing else: on two nodes that can be probed on
      that side, whose index lists agree, position by position, on the
      alias of the first expression, and whose operands have the same
      alias, the entries handed out are at one and the same position of
      the two lists, or nothing is handed out on either, whatever the
      further expressions of the indexes and the bindings of the
      expressions are. *)
Theorem index_search_compares_first_alias context op left right :
  (forall s index,
     found_on s (TransformIndexJoin context op left right) = Some index ->
     exists cond scan bd,
       conditions op = [cond] /\
       child s left right = Scan scan /\
       bind_data scan = Some (TableScanBind bd) /\
       find_index (indexes (info (storage (table bd))))
         (alias (operand s cond)) = Some index /\
       first_match (indexes (info (storage (table bd))))
         (alias (operand s cond)) index)
  /\
  (forall s cond bd,
     CanProbe context op (child s left right) cond bd ->
     found_on s (TransformIndexJoin context op left right)
     = find_index (indexes (info (storage (table bd))))
         (alias (operand s cond)) /\
     (forall index,
        found_on s (TransformIndexJoin context op left right) = Some index <->
        first_match (indexes (info (storage (table bd))))
          (alias (operand s cond)) index) /\
     (found_on s (TransformIndexJoin context op left right) = None <->
      Forall (fun i => first_alias i <> alias (operand s cond))
        (indexes (info (storage (table bd))))) /\
     found_on s (TransformIndexJoin context op left right)
     = (find_position (indexes (info (storage (table bd))))
          (alias (operand s cond))
        ≫= fun k => indexes (info (storage (table bd))) !! k))
  /\
  (forall s cond bd context' op' left' right' cond' bd',
     CanProbe context op (child s left right) cond bd ->
     CanProbe context' op' (child s left' right') cond' bd' ->
     Forall2 (fun i j => first_alias i = first_alias j)
       (indexes (info (storage (table bd))))
       (indexes (info (storage (table bd')))) ->
     alias (operand s cond) = alias (operand s cond') ->
     exists pos : option nat,
       found_on s (TransformIndexJoin context op left right)
       = (pos ≫= fun k => indexes (info (storage (table bd))) !! k) /\
       found_on s (TransformIndexJoin context' op' left' right')
       = (pos ≫= fun k => indexes (info (storage (table bd'))) !! k)).
Proof.
  split; [|split].
  - intros s index H.
    destruct (TransformIndexJoin_Some context op left right) as (Hj & cond & Hc).
    { destruct s; cbn in H; [left|right]; congruence. }
    rewrite (found_on_single _ _ _ _ _ _ Hc Hj) in H.
    apply index_of_child_Some in H as (scan & bd & Hs & Hb & _ & _ & Hf).
    exists cond, scan, bd. repeat (split; [assumption|]).
    now apply find_index_Some.
  - intros s cond bd HP.
    rewrite (found_on_probed _ _ _ _ _ _ _ HP).
    split; [reflexivity|]. split; [|split].
    + intros index. apply find_index_Some.
    + apply find_index_None.
    + apply find_index_position.
  - intros s cond bd context' op' left' right' cond' bd' HP HP' Hl Ha.
    rewrite (found_on_probed _ _ _ _ _ _ _ HP).
    rewrite (found_on_probed _ _ _ _ _ _ _ HP').
    exists (find_position (indexes (info (storage (table bd))))
              (alias (operand s cond))).
    split; [apply find_index_position|].
    rewrite find_index_position, <- Ha.
    now rewrite (find_position_aliases_only _ _ _ Hl).
Qed.

(* ===================================================================== *)
(** * The properties on the scenarios *)
(* ===================================================================== *)

Lemma scenario_left_eligible force :
  SpecEligible (Scenario.ctx Scenario.no_local force) (equi_join false)
    LeftSide Scenario.scan_A.
Proof.
  exists (Scenario.cmp Scenario.A_x COMPARE_EQUAL Scenario.B_y false),
    (Scenario.scan_of Scenario.table_A), {| table := Scenario.table_A |}.
  repeat (split; [reflexivity|]).
  exists (Scenario.idx_on Scenario.A_x). split; [|reflexivity].
  apply list_elem_of_further, list_elem_of_here.
Defined.

Lemma scenario_right_eligible force :
  SpecEligible (Scenario.ctx Scenario.no_local force) (equi_join false)
    RightSide Scenario.scan_B.
Proof.
  exists (Scenario.cmp Scenario.A_x COMPARE_EQUAL Scenario.B_y false),
    (Scenario.scan_of Scenario.table_B), {| table := Scenario.table_B |}.
  repeat (split; [reflexivity|]).
  exists (Scenario.idx_on Scenario.B_y). split; [|reflexivity].
  apply list_elem_of_here.
Defined.

(** C1 fails on the code: a single inner equality condition that is
    null-aware, on a left table scan with a matching index, is planned
    as an index join, in both builds, by the cardinality test as well as
    by the force flag. *)
Theorem null_equal_condition_gets_index_join :
  forall ndebug force,
    CreatePlan ndebug (Scenario.ctx Scenario.no_local force) (equi_join true)
      1000000 100 Scenario.scan_A Scenario.scan_B
    = Returned
        (PhysicalIndexJoin [INTEGER; INTEGER] Scenario.scan_B Scenario.scan_A
           [Scenario.cmp Scenario.B_y COMPARE_EQUAL Scenario.A_x true]
           INNER [1]%N [0]%N [0; 1]%N (Scenario.idx_on Scenario.A_x) false).
Proof. intros [|] [|]; vm_compute; reflexivity. Qed.

Lemma cross_product_on_no_condition_witness :
  CreatePlan false (Scenario.ctx Scenario.local_on_A true)
    (Scenario.join SEMI []) 5 7 Scenario.scan_A Scenario.scan_B
  = Returned (PhysicalCrossProduct [INTEGER; INTEGER]
                Scenario.scan_A Scenario.scan_B).
Proof.
  apply (cross_product_on_no_condition false
           (Scenario.ctx Scenario.local_on_A true) (Scenario.join SEMI [])).
  reflexivity.
Defined.

(** The join [A.x = B.y] over a million rows on the left and a hundred
    on the right: the plan probes the index of [A] on [x], the second of
    the table's list, with the condition turned into [B.y = A.x]. *)
Lemma left_index_join_witness :
  CreatePlan false (Scenario.ctx Scenario.no_local false) (equi_join false)
    1000000 100 Scenario.scan_A Scenario.scan_B
  = Returned
      (PhysicalIndexJoin [INTEGER; INTEGER] Scenario.scan_B Scenario.scan_A
         [ {| JoinCondition.left := Scenario.B_y;
              JoinCondition.right := Scenario.A_x;
              JoinCondition.comparison := COMPARE_EQUAL;
              JoinCondition.null_values_are_equal := false |} ]
         INNER [1]%N [0]%N [0; 1]%N
         {| unbound_expressions := (Scenario.A_x, []) |} false).
Proof.
  destruct (left_index_join false (Scenario.ctx Scenario.no_local false)
              (equi_join false) 1000000 100 Scenario.scan_A Scenario.scan_B)
    as (cond & scan & bd & index & Hc & Hs & Hb & Hm & Hp).
  - apply scenario_left_eligible.
  - right. vm_compute. reflexivity.
  - rewrite Hp. injection Hc as <-. injection Hs as <-. injection Hb as <-.
    destruct Hm as (pre & post & Hl & Ha & Hpre).
    destruct pre as [|i0 pre].
    + injection Hl as <- _. discriminate Ha.
    + injection Hl as <- Hl. destruct pre as [|i1 pre].
      * injection Hl as <- _. reflexivity.
      * injection Hl as _ Hl. now destruct pre.
Defined.

(** C3 fails on the code as it is stated: with the left side eligible
    and the right estimate strictly below one percent of the left one,
    [100 * 184467440737095510 < 18446744073709551615], the test of line
    105 is false in double precision, where [0.01 * lhs_cardinality] is
    [184467440737095520] and the right estimate rounds to that very
    value, and the plan is a hash join. *)
Lemma exact_one_percent_is_not_the_test :
  SpecEligible (Scenario.ctx Scenario.no_local false) (equi_join false)
    LeftSide Scenario.scan_A /\
  (100 * 184467440737095510 < 18446744073709551615)%N /\
  force_index_join (Scenario.ctx Scenario.no_local false) = false /\
  CreatePlan false (Scenario.ctx Scenario.no_local false) (equi_join false)
    18446744073709551615 184467440737095510 Scenario.scan_A Scenario.scan_B
  = Returned (PhysicalHashJoin [INTEGER; INTEGER]
                Scenario.scan_A Scenario.scan_B
                [Scenario.cmp Scenario.A_x COMPARE_EQUAL Scenario.B_y false]
                INNER [0]%N [1]%N).
Proof.
  split; [apply scenario_left_eligible|].
  split; [reflexivity|].
  split; [reflexivity|].
  vm_compute. reflexivity.
Qed.

Lemma left_index_has_precedence_witness :
  exists cond scan bd index,
    conditions (equi_join false) = [cond] /\
    Scenario.scan_A = Scan scan /\
    bind_data scan = Some (TableScanBind bd) /\
    find_index (indexes (info (storage (table bd))))
      (alias (JoinCondition.left cond)) = Some index /\
    CreatePlan false (Scenario.ctx Scenario.no_local true) (equi_join false)
      100 100 Scenario.scan_A Scenario.scan_B
    = Returned (index_join_on_left (equi_join false)
                  Scenario.scan_A Scenario.scan_B index).
Proof.
  apply (proj1 (left_index_has_precedence false
                  (Scenario.ctx Scenario.no_local true) (equi_join false)
                  100 100 Scenario.scan_A Scenario.scan_B)).
  - apply scenario_left_eligible.
  - apply scenario_right_eligible.
  - left. reflexivity.
Defined.

Lemma conditions_round_trip_witness :
  reverse_swap
    (PhysicalIndexJoin [INTEGER; INTEGER] Scenario.scan_B Scenario.scan_A
       [Scenario.cmp Scenario.B_y COMPARE_EQUAL Scenario.A_x false]
       INNER [1]%N [0]%N [0; 1]%N (Scenario.idx_on Scenario.A_x) false)
  = conditions (equi_join false).
Proof.
  apply (conditions_round_trip false (Scenario.ctx Scenario.no_local false)
           (equi_join false) 1000000 100 Scenario.scan_A Scenario.scan_B).
  vm_compute. reflexivity.
Defined.

(** C2 fails on the code as it is stated: with the force flag set and
    both tables indexed on their operand, the right side meets every
    listed requirement, and the index join that is planned is the one on
    the left table's index. *)
Lemma right_side_qualifies_left_is_taken :
  SpecEligible (Scenario.ctx Scenario.no_local true) (equi_join false)
    RightSide Scenario.scan_B /\
  ratio_or_force (Scenario.ctx Scenario.no_local true) 100 100 /\
  ~ produces_index_join
      (CreatePlan false (Scenario.ctx Scenario.no_local true) (equi_join false)
         100 100 Scenario.scan_A Scenario.scan_B)
      RightSide.
Proof.
  split; [apply scenario_right_eligible|].
  split; [left; reflexivity|].
  intros (p & Hp & Hs). vm_compute in Hp. injection Hp as <-.
  discriminate Hs.
Qed.

Lemma index_join_iff_eligible_witness :
  produces_index_join
    (CreatePlan false (Scenario.ctx Scenario.no_local false) (equi_join false)
       1000000 100 Scenario.scan_A Scenario.scan_B)
    LeftSide.
Proof.
  apply (proj1 (index_join_iff_eligible false
                  (Scenario.ctx Scenario.no_local false) (equi_join false)
                  1000000 100 Scenario.scan_A Scenario.scan_B
                  ltac:(repeat constructor))).
  split; [apply scenario_left_eligible | right; vm_compute; reflexivity].
Defined.

(** C5 fails on the code as it is stated: compiled with [NDEBUG], the
    selection returns a merge join for a condition that is null-aware
    and not an equality. *)
Lemma malformed_null_equal_planned_under_ndebug :
  Scenario.cmp Scenario.A_x COMPARE_LESSTHAN Scenario.B_y true
    ∈ conditions malformed_join /\
  CreatePlan true (Scenario.ctx Scenario.no_local false) malformed_join
    10 10 Scenario.scan_A Scenario.scan_B
  = Returned (PhysicalPiecewiseMergeJoin [INTEGER; INTEGER]
                Scenario.scan_A Scenario.scan_B
                [Scenario.cmp Scenario.A_x COMPARE_LESSTHAN Scenario.B_y true]
                INNER).
Proof. split; [apply list_elem_of_here | vm_compute; reflexivity]. Qed.

Lemma malformed_null_equal_aborts_witness :
  CreatePlan false (Scenario.ctx Scenario.no_local false) malformed_join
    10 10 Scenario.scan_A Scenario.scan_B
  = AssertionFailed.
Proof.
  apply (malformed_null_equal_aborts (Scenario.ctx Scenario.no_local false)
           malformed_join 10 10 Scenario.scan_A Scenario.scan_B
           (Scenario.cmp Scenario.A_x COMPARE_LESSTHAN Scenario.B_y true)).
  - apply list_elem_of_here.
  - reflexivity.
  - discriminate.
Defined.

Lemma hash_join_keeps_conditions_witness :
  CreatePlan false (Scenario.ctx Scenario.no_local true) mixed_join
    1000000 100 Scenario.scan_A Scenario.scan_B
  = Returned (PhysicalHashJoin [INTEGER; INTEGER]
                Scenario.scan_A Scenario.scan_B
                [Scenario.cmp Scenario.A_x COMPARE_EQUAL Scenario.B_y false;
                 Scenario.cmp Scenario.A_z COMPARE_LESSTHAN Scenario.B_w false]
                LEFT [0]%N [1]%N).
Proof.
  apply (hash_join_keeps_conditions false
           (Scenario.ctx Scenario.no_local true) mixed_join
           1000000 100 Scenario.scan_A Scenario.scan_B).
  - eexists. split; [apply list_elem_of_here | reflexivity].
  - right. repeat constructor; discriminate.
  - vm_compute. reflexivity.
  - vm_compute. reflexivity.
Defined.

(** C8 fails on the code as it is stated: a single not-equal condition
    is planned as a nested loop join, and with assertions compiled in a
    single null-aware range condition aborts. *)
Lemma single_non_equality_not_merge_join :
  CreatePlan false (Scenario.ctx Scenario.no_local false) notequal_join
    10 10 Scenario.scan_A Scenario.scan_B
  = Returned (PhysicalNestedLoopJoin [INTEGER; INTEGER]
                Scenario.scan_A Scenario.scan_B
                [Scenario.cmp Scenario.A_x COMPARE_NOTEQUAL Scenario.B_y false]
                INNER)
  /\
  CreatePlan false (Scenario.ctx Scenario.no_local false) malformed_join
    10 10 Scenario.scan_A Scenario.scan_B
  = AssertionFailed.
Proof. split; vm_compute; reflexivity. Qed.

Lemma merge_join_on_single_range_witness :
  CreatePlan false (Scenario.ctx Scenario.no_local false)
    (Scenario.join INNER
       [Scenario.cmp Scenario.A_x COMPARE_GREATERTHANOREQUALTO Scenario.B_y false])
    10 10 Scenario.scan_A Scenario.scan_B
  = Returned (PhysicalPiecewiseMergeJoin [INTEGER; INTEGER]
                Scenario.scan_A Scenario.scan_B
                [Scenario.cmp Scenario.A_x COMPARE_GREATERTHANOREQUALTO
                   Scenario.B_y false]
                INNER).
Proof.
  apply (merge_join_on_single_range false
           (Scenario.ctx Scenario.no_local false)
           (Scenario.join INNER
              [Scenario.cmp Scenario.A_x COMPARE_GREATERTHANOREQUALTO
                 Scenario.B_y false])
           10 10 Scenario.scan_A Scenario.scan_B).
  - reflexivity.
  - discriminate.
  - discriminate.
  - right. reflexivity.
Defined.

(** On the table with an index on [(z, x)], one on [(x, z)] and one on
    [x], the index handed out for the operand [A.x] is the second of the
    list: the first has [x] as its second expression only, and the third
    comes after a match. *)
Lemma index_search_compares_first_alias_witness :
  found_on LeftSide
    (TransformIndexJoin (Scenario.ctx Scenario.no_local false)
       (equi_join false) scan_C Scenario.scan_B)
  = Some {| unbound_expressions := (Scenario.A_x, [Scenario.A_z]) |}.
Proof.
  apply (proj1 (proj2 (proj1 (proj2 (index_search_compares_first_alias
                  (Scenario.ctx Scenario.no_local false) (equi_join false)
                  scan_C Scenario.scan_B))
           LeftSide
           (Scenario.cmp Scenario.A_x COMPARE_EQUAL Scenario.B_y false)
           {| table := table_C |}
           ltac:(repeat split; exists (Scenario.scan_of table_C);
                 repeat split)))
           {| unbound_expressions := (Scenario.A_x, [Scenario.A_z]) |}).
  exists [ {| unbound_expressions := (Scenario.A_z, [Scenario.A_x]) |} ],
    [ Scenario.idx_on Scenario.A_x ].
  split; [reflexivity|]. split; [reflexivity|].
  repeat constructor. discriminate.
Defined.

(* ===================================================================== *)
(** * Further properties of the selection *)
(* ===================================================================== *)

(** A single equality condition passes both [assert]s, null-aware or
    not. *)
Lemma passes_single_equality ndebug op cond :
  conditions op = [cond] ->
  JoinCondition.comparison cond = COMPARE_EQUAL ->
  passes ndebug op = true.
Proof.
  intros Hc He. unfold passes. rewrite Hc. cbn.
  unfold well_formed_condition.
  apply is_equal_true in He. rewrite He.
  destruct ndebug, (JoinCondition.null_values_are_equal cond); reflexivity.
Qed.

Lemma passes_iff ndebug op :
  passes ndebug op = true <->
  ndebug = true \/
  Forall (fun c => JoinCondition.null_values_are_equal c = true ->
                   JoinCondition.comparison c = COMPARE_EQUAL)
    (conditions op).
Proof.
  unfold passes. rewrite orb_true_iff, forallb_well_formed. reflexivity.
Qed.

(** Outside inner joins with exactly one condition neither test of the
    equality branch fires. *)
Lemma no_fire_outside_single_inner context op lc rc left right :
  join_type op <> INNER \/ length (conditions op) <> 1%nat ->
  left_fires context op lc rc left right = false /\
  right_fires context op lc rc left right = false.
Proof.
  intros H.
  assert (E : TransformIndexJoin context op left right = (None, None)).
  { destruct (TransformIndexJoin context op left right) as [[i|] [j|]] eqn:E;
      try reflexivity;
      destruct (TransformIndexJoin_Some context op left right)
        as (Hj & cond & Hc);
      try (rewrite E; cbn; (left; congruence) || (right; congruence));
      destruct H as [H|H]; try contradiction;
      rewrite Hc in H; now cbn in H. }
  unfold left_fires, right_fires. now rewrite E.
Qed.

(** X1. When the left test does not fire, a right side that
    [TransformIndexJoin] accepts, under a single equality condition and
    with the force flag set or the left cardinality below one percent of
    the right one, is probed: the index join has the children in their
    order, the condition list and the projection maps as they are, the
    column ids of the right scan, the first alias match of the right
    table's index list, and [lhs_first = true]. *)
Theorem right_index_join
    ndebug context op lhs_cardinality rhs_cardinality left right cond :
  conditions op = [cond] ->
  JoinCondition.comparison cond = COMPARE_EQUAL ->
  IndexUsable context op RightSide right ->
  left_fires context op lhs_cardinality rhs_cardinality left right = false ->
  ratio_or_force context lhs_cardinality rhs_cardinality ->
  exists scan bd index,
    right = Scan scan /\
    bind_data scan = Some (TableScanBind bd) /\
    first_match (indexes (info (storage (table bd))))
      (alias (JoinCondition.right cond)) index /\
    CreatePlan ndebug context op lhs_cardinality rhs_cardinality left right
    = Returned (PhysicalIndexJoin (types op) left right
                  [cond] (join_type op)
                  (left_projection_map op) (right_projection_map op)
                  (column_ids scan) index true).
Proof.
  intros Hc He HU Hl Hr.
  pose proof HU as (cond' & _ & _ & Hc' & Hj & _).
  apply (found_on_usable context op left right RightSide) in HU as [index Hi].
  pose proof Hi as Hi'.
  rewrite (found_on_single _ _ _ _ _ _ Hc Hj) in Hi'.
  apply index_of_child_Some in Hi' as (scan & bd & Hs & Hb & _ & _ & Hf).
  cbn [child operand] in Hs, Hf.
  exists scan, bd, index. repeat (split; [assumption|]).
  split; [now apply find_index_Some|].
  rewrite (CreatePlan_right_index _ _ _ _ _ _ _ index).
  - unfold index_join_on_right. now rewrite Hc, Hs.
  - now apply (passes_single_equality _ _ cond).
  - rewrite Hc. now apply existsb_is_equal_single.
  - exact Hl.
  - exact Hi.
  - now apply ratio_or_force_orb.
Qed.

(** X2. An index join is returned only for an inner join with exactly
    one condition, an equality, on a side whose plan is a table scan with
    table-scan bind data, no table filter, no transaction-local storage
    on its table and an index with the operand's alias, and only when
    the force flag is set or the other side's cardinality passes the
    test against this side's. *)
Theorem index_join_only_when_usable
    ndebug context op lhs_cardinality rhs_cardinality left right p s :
  CreatePlan ndebug context op lhs_cardinality rhs_cardinality left right
  = Returned p ->
  probed_side p = Some s ->
  IndexUsable context op s (child s left right) /\
  (exists cond, conditions op = [cond] /\
                JoinCondition.comparison cond = COMPARE_EQUAL) /\
  ratio_or_force context
    (cardinality_of (opposite_side s) lhs_cardinality rhs_cardinality)
    (cardinality_of s lhs_cardinality rhs_cardinality).
Proof.
  intros Hp Hs.
  apply CreatePlan_Returned in Hp
    as [[_ ->]|[(i & _ & He & Hf & ->)|[(i & _ & He & _ & Hf & ->)
       |[(_ & _ & _ & ->)|(_ & [-> | ->])]]]];
    cbn in Hs; try discriminate; injection Hs as <-; cbn.
  - apply left_fires_iff in Hf as [HU Hr]. repeat split; auto.
    destruct HU as (cond & _ & _ & Hc & _). exists cond. split; [assumption|].
    rewrite Hc in He. now apply existsb_is_equal_single.
  - apply right_fires_iff in Hf as [HU Hr]. repeat split; auto.
    destruct HU as (cond & _ & _ & Hc & _). exists cond. split; [assumption|].
    rewrite Hc in He. now apply existsb_is_equal_single.
Qed.

(** X3. In every index join returned, the second child is the probed
    table scan and the first child the other plan, the column ids are
    those of the probed scan, and the index is the first entry of the
    probed table's index list whose first expression has the alias of
    that side's operand. *)
Theorem index_join_holds_probed_scan
    ndebug context op lhs_cardinality rhs_cardinality left right
    tys a b conds jt lpm rpm cols index lhs_first :
  CreatePlan ndebug context op lhs_cardinality rhs_cardinality left right
  = Returned (PhysicalIndexJoin tys a b conds jt lpm rpm cols index lhs_first) ->
  let s := if lhs_first then RightSide else LeftSide in
  a = child (opposite_side s) left right /\
  b = child s left right /\
  exists cond scan bd,
    conditions op = [cond] /\
    b = Scan scan /\
    bind_data scan = Some (TableScanBind bd) /\
    cols = column_ids scan /\
    first_match (indexes (info (storage (table bd))))
      (alias (operand s cond)) index.
Proof.
  intros Hp s.
  assert (Hfound : forall s' i,
            found_on s' (TransformIndexJoin context op left right) = Some i ->
            exists cond scan bd,
              conditions op = [cond] /\
              child s' left right = Scan scan /\
              bind_data scan = Some (TableScanBind bd) /\
              first_match (indexes (info (storage (table bd))))
                (alias (operand s' cond)) i).
  { intros s' i H.
    destruct (TransformIndexJoin_Some context op left right) as (Hj & cond & Hc).
    { destruct s'; cbn in H; [left|right]; congruence. }
    rewrite (found_on_single _ _ _ _ _ _ Hc Hj) in H.
    apply index_of_child_Some in H as (scan & bd & Hs & Hb & _ & _ & Hf).
    exists cond, scan, bd. repeat (split; [assumption|]).
    now apply find_index_Some. }
  apply CreatePlan_Returned in Hp
    as [[_ Hp]|[(i & Hi & _ & _ & Hp)|[(i & Hi & _ & _ & _ & Hp)
       |[(_ & _ & _ & Hp)|(_ & [Hp | Hp])]]]];
    try discriminate.
  - unfold index_join_on_left in Hp.
    injection Hp as -> -> -> -> -> -> -> -> -> ->. subst s. cbn.
    repeat split.
    destruct (Hfound LeftSide i Hi) as (cond & scan & bd & Hc & Hs & Hb & Hm).
    cbn in Hs. exists cond, scan, bd. rewrite Hs. auto.
  - unfold index_join_on_right in Hp.
    injection Hp as -> -> -> -> -> -> -> -> -> ->. subst s. cbn.
    repeat split.
    destruct (Hfound RightSide i Hi) as (cond & scan & bd & Hc & Hs & Hb & Hm).
    cbn in Hs. exists cond, scan, bd. rewrite Hs. auto.
Qed.

Lemma existsb_is_equal_false conds :
  existsb is_equal conds = false <->
  Forall (fun c => JoinCondition.comparison c <> COMPARE_EQUAL) conds.
Proof.
  induction conds as [|c rest IH]; cbn.
  - split; auto.
  - rewrite orb_false_iff, IH, is_equal_false. split.
    + intros [H1 H2]. now constructor.
    + intros H. now inversion H.
Qed.

Lemma existsb_is_notequal conds :
  existsb is_notequal conds = true <->
  exists c, c ∈ conds /\ JoinCondition.comparison c = COMPARE_NOTEQUAL.
Proof.
  rewrite existsb_exists. unfold is_notequal.
  split; intros (c & Hin & Hc); exists c;
    (split; [now apply list_elem_of_In | now apply ExpressionType_eqb_eq]).
Qed.

(** X4. A join node without equality condition that has two conditions
    or more, or a not-equal condition, and on which no [assert] fires, is
    planned as a nested loop join over the two children in their order,
    with the condition list unchanged. *)
Theorem nested_loop_join_on_general_conditions
    ndebug context op lhs_cardinality rhs_cardinality left right :
  Forall (fun c => JoinCondition.comparison c <> COMPARE_EQUAL) (conditions op) ->
  (2 <= length (conditions op))%nat \/
  (exists c, c ∈ conditions op /\
             JoinCondition.comparison c = COMPARE_NOTEQUAL) ->
  ndebug = true \/
  Forall (fun c => JoinCondition.null_values_are_equal c = false)
    (conditions op) ->
  CreatePlan ndebug context op lhs_cardinality rhs_cardinality left right
  = Returned (PhysicalNestedLoopJoin (types op) left right
                (conditions op) (join_type op)).
Proof.
  intros Hne Hshape Hwf.
  assert (Hnil : conditions op <> []).
  { destruct Hshape as [H|(c & Hin & _)]; intros E; rewrite E in *.
    - cbn in H. lia.
    - now apply not_elem_of_nil in Hin. }
  rewrite CreatePlan_no_equality; auto.
  - f_equal.
    destruct ((length (conditions op) =? 1)%nat
              && negb (existsb is_notequal (conditions op))) eqn:E;
      [|reflexivity].
    apply andb_true_iff in E as [E1 E2].
    apply Nat.eqb_eq in E1. apply negb_true_iff in E2.
    destruct Hshape as [H|H]; [lia|].
    apply existsb_is_notequal in H. congruence.
  - apply passes_iff. destruct Hwf as [->|Hwf]; [now left|right].
    eapply Forall_impl; [exact Hwf|]. cbn. intros c Hc Hn. congruence.
  - now apply existsb_is_equal_false.
Qed.

(** X5. On a join node with two children, each lowered to a plan, so
    that the two [assert]s of lines 70 and 75 hold, what remains of plan
    construction aborts exactly when the build has assertions and some
    condition of the node is null-aware without being an equality; in
    every other case an operator is returned. *)
Theorem CreatePlan_aborts_iff
    ndebug context op lhs_cardinality rhs_cardinality left right :
  CreatePlan ndebug context op lhs_cardinality rhs_cardinality left right
  = AssertionFailed
  <->
  ndebug = false /\
  exists c, c ∈ conditions op /\
            JoinCondition.null_values_are_equal c = true /\
            JoinCondition.comparison c <> COMPARE_EQUAL.
Proof.
  assert (Hpass : passes ndebug op = false <->
            ndebug = false /\
            exists c, c ∈ conditions op /\
                      JoinCondition.null_values_are_equal c = true /\
                      JoinCondition.comparison c <> COMPARE_EQUAL).
  { unfold passes. rewrite orb_false_iff. apply and_iff_compat_l.
    split.
    - intros H. apply not_true_iff_false in H.
      rewrite forallb_forall in H.
      destruct (existsb (fun c => negb (well_formed_condition c))
                  (conditions op)) eqn:E.
      + apply existsb_exists in E as (c & Hin & Hc).
        exists c. split; [now apply list_elem_of_In|].
        unfold well_formed_condition in Hc.
        destruct (JoinCondition.null_values_are_equal c); cbn in Hc;
          [|discriminate].
        split; [reflexivity|]. apply is_equal_false.
        now apply negb_true_iff.
      + exfalso. apply H. intros c Hin.
        destruct (well_formed_condition c) eqn:Hc; [reflexivity|].
        assert (existsb (fun c => negb (well_formed_condition c))
                  (conditions op) = true); [|congruence].
        apply existsb_exists. exists c. now rewrite Hc.
    - intros (c & Hin & Hn & Hc). apply not_true_iff_false.
      rewrite forallb_forall. intros H.
      apply list_elem_of_In in Hin. specialize (H c Hin).
      unfold well_formed_condition in H. rewrite Hn in H. cbn in H.
      now apply is_equal_true in H. }
  split.
  - intros H. apply Hpass.
    destruct (passes ndebug op) eqn:Hp; [exfalso|reflexivity].
    destruct (conditions op) as [|c rest] eqn:E.
    { rewrite CreatePlan_empty in H by assumption. discriminate. }
    assert (Hne : conditions op <> []) by congruence.
    destruct (existsb is_equal (conditions op)) eqn:He.
    2:{ rewrite CreatePlan_no_equality in H by assumption. discriminate. }
    destruct (left_fires context op lhs_cardinality rhs_cardinality left right)
      eqn:Hl.
    { pose proof Hl as Hl'. unfold left_fires in Hl'.
      destruct (fst _) as [index|] eqn:Ef; [|discriminate].
      rewrite (CreatePlan_left_index _ _ _ _ _ _ _ index) in H by assumption.
      discriminate. }
    destruct (right_fires context op lhs_cardinality rhs_cardinality left right)
      eqn:Hr.
    { pose proof Hr as Hr'. unfold right_fires in Hr'.
      destruct (snd _) as [index|] eqn:Ef; [|discriminate].
      rewrite (CreatePlan_right_index _ _ _ _ _ _ _ index) in H by assumption.
      discriminate. }
    rewrite CreatePlan_hash_join in H by assumption. discriminate.
  - intros H. pose proof H as (_ & c & Hin & _).
    apply CreatePlan_aborts; [|now apply Hpass].
    intros E. rewrite E in Hin. now apply not_elem_of_nil in Hin.
Qed.

(** X6. Every operator returned is one of the five join operators, is
    built with [op.types], has the two child plans as its children, in
    their order except in the index join on the left table's index, and,
    unless it is a cross product, carries the join type of the node. *)
Theorem returned_operator_frame
    ndebug context op lhs_cardinality rhs_cardinality left right p :
  CreatePlan ndebug context op lhs_cardinality rhs_cardinality left right
  = Returned p ->
  type p ∈ [CROSS_PRODUCT; HASH_JOIN; INDEX_JOIN; PIECEWISE_MERGE_JOIN;
            NESTED_LOOP_JOIN] /\
  op_types p = types op /\
  op_children p =
    match probed_side p with
    | Some LeftSide => [right; left]
    | _ => [left; right]
    end /\
  (type p = CROSS_PRODUCT /\ conditions op = [] \/
   type p <> CROSS_PRODUCT /\ conditions op <> [] /\
   op_join_type p = Some (join_type op)).
Proof.
  intros Hp.
  destruct (conditions op) as [|c rest] eqn:E.
  - rewrite CreatePlan_empty in Hp by assumption. injection Hp as <-. cbn.
    repeat split; auto. apply list_elem_of_here.
  - assert (Hne : c :: rest <> []) by discriminate.
    apply CreatePlan_Returned in Hp
      as [[Hc ->]|[(i & _ & _ & _ & ->)|[(i & _ & _ & _ & _ & ->)
         |[(_ & _ & _ & ->)|(_ & [-> | ->])]]]];
      try congruence; cbn; repeat split; auto;
      try (right; repeat split; auto; discriminate);
      repeat (apply list_elem_of_here || apply list_elem_of_further).
Qed.

(** X7. With the force flag set the cardinality estimates have no say:
    the selection returns the same operator for any two pairs of
    estimates. *)
Theorem forced_selection_ignores_cardinalities
    ndebug context op lc rc lc' rc' left right :
  force_index_join context = true ->
  CreatePlan ndebug context op lc rc left right
  = CreatePlan ndebug context op lc' rc' left right.
Proof.
  intros Hf. unfold CreatePlan. rewrite Hf. reflexivity.
Qed.

(** X8. Outside inner joins with exactly one condition the selection
    reads neither the transaction, nor the force flag, nor the
    cardinality estimates: it returns the same outcome in any context
    and for any estimates. *)
Theorem selection_outside_single_inner_is_context_free
    ndebug context context' op lc rc lc' rc' left right :
  join_type op <> INNER \/ length (conditions op) <> 1%nat ->
  CreatePlan ndebug context op lc rc left right
  = CreatePlan ndebug context' op lc' rc' left right.
Proof.
  intros H.
  assert (E : forall ctx, TransformIndexJoin ctx op left right = (None, None)).
  { intros ctx. unfold TransformIndexJoin.
    destruct (JoinType_eqb (join_type op) INNER) eqn:Ej; cbn; [|reflexivity].
    apply JoinType_eqb_eq in Ej.
    destruct H as [H|H]; [contradiction|].
    destruct (conditions op) as [|c [|c' rest]]; cbn in *;
      try reflexivity. lia. }
  unfold CreatePlan. now rewrite !E.
Qed.

(** X9. A join that is not inner, or has two conditions or more, and has
    an equality condition is planned as a hash join whatever indexes,
    estimates and force flag are there, as long as no [assert] fires. *)
Theorem hash_join_outside_single_inner
    ndebug context op lhs_cardinality rhs_cardinality left right :
  join_type op <> INNER \/ (2 <= length (conditions op))%nat ->
  (exists c, c ∈ conditions op /\ JoinCondition.comparison c = COMPARE_EQUAL) ->
  ndebug = true \/
  Forall (fun c => JoinCondition.null_values_are_equal c = true ->
                   JoinCondition.comparison c = COMPARE_EQUAL)
    (conditions op) ->
  CreatePlan ndebug context op lhs_cardinality rhs_cardinality left right
  = Returned (PhysicalHashJoin (types op) left right
                (conditions op) (join_type op)
                (left_projection_map op) (right_projection_map op)).
Proof.
  intros Hshape He Hwf.
  destruct (no_fire_outside_single_inner context op
              lhs_cardinality rhs_cardinality left right) as [Hl Hr].
  { destruct Hshape as [H|H]; [now left|right; lia]. }
  apply CreatePlan_hash_join; auto.
  - now apply passes_iff.
  - now apply existsb_is_equal.
Qed.

(** Against an estimate of zero the cardinality test fails, whatever the
    other estimate is. *)
Lemma lt_one_percent_of_zero n : lt_one_percent n 0 = false.
Proof.
  unfold lt_one_percent.
  change (SFmul 53 1024 double_0_01 (double_of_idx 0)) with (S754_zero false).
  unfold double_of_idx, binary_normalize.
  destruct n as [|m]; cbn [Z.of_N]; [reflexivity|].
  unfold binary_round;
    destruct (shl_align _ _ _) as [mz ez];
    unfold binary_round_aux;
    destruct (shr_fexp _ _ _ _ _) as [mrs' e'];
    destruct (shr_fexp _ _ _ _ _) as [mrs'' e''];
    destruct (shr_m mrs'') as [|q|q]; try reflexivity;
    destruct (Z.leb _ _); reflexivity.
Qed.

(** X10. Without the force flag, a side whose cardinality estimate is
    zero is never probed: the test of the other estimate against zero
    fails. *)
Theorem zero_estimate_is_not_probed
    ndebug context op lhs_cardinality rhs_cardinality left right p s :
  force_index_join context = false ->
  cardinality_of s lhs_cardinality rhs_cardinality = 0%N ->
  CreatePlan ndebug context op lhs_cardinality rhs_cardinality left right
  = Returned p ->
  probed_side p <> Some s.
Proof.
  intros Hforce Hzero Hp Hs.
  apply CreatePlan_Returned in Hp
    as [[_ ->]|[(i & _ & _ & Hf & ->)|[(i & _ & _ & _ & Hf & ->)
       |[(_ & _ & _ & ->)|(_ & [-> | ->])]]]];
    cbn in Hs; try discriminate; injection Hs as <-; cbn in Hzero.
  - unfold left_fires in Hf. destruct (fst _); [|discriminate].
    now rewrite Hforce, Hzero, lt_one_percent_of_zero in Hf.
  - unfold right_fires in Hf. destruct (snd _); [|discriminate].
    now rewrite Hforce, Hzero, lt_one_percent_of_zero in Hf.
Qed.

(* ===================================================================== *)
(** * The further properties on the scenarios *)
(* ===================================================================== *)

Lemma scenario_right_usable force :
  IndexUsable (Scenario.ctx Scenario.no_local force) (equi_join true)
    RightSide Scenario.scan_B.
Proof.
  exists (Scenario.cmp Scenario.A_x COMPARE_EQUAL Scenario.B_y true),
    (Scenario.scan_of Scenario.table_B), {| table := Scenario.table_B |}.
  repeat (split; [reflexivity|]).
  exists (Scenario.idx_on Scenario.B_y). split; [|reflexivity].
  apply list_elem_of_here.
Defined.

Lemma right_index_join_witness :
  exists scan bd index,
    Scenario.scan_B = Scan scan /\
    bind_data scan = Some (TableScanBind bd) /\
    first_match (indexes (info (storage (table bd))))
      (alias Scenario.B_y) index /\
    CreatePlan false (Scenario.ctx Scenario.no_local false) (equi_join true)
      100 1000000 Scenario.scan_A Scenario.scan_B
    = Returned (PhysicalIndexJoin [INTEGER; INTEGER]
                  Scenario.scan_A Scenario.scan_B
                  [Scenario.cmp Scenario.A_x COMPARE_EQUAL Scenario.B_y true]
                  INNER [0]%N [1]%N (column_ids scan) index true).
Proof.
  apply (right_index_join false (Scenario.ctx Scenario.no_local false)
           (equi_join true) 100 1000000 Scenario.scan_A Scenario.scan_B
           (Scenario.cmp Scenario.A_x COMPARE_EQUAL Scenario.B_y true)).
  - reflexivity.
  - reflexivity.
  - apply scenario_right_usable.
  - vm_compute. reflexivity.
  - right. vm_compute. reflexivity.
Defined.

Lemma index_join_only_when_usable_witness :
  IndexUsable (Scenario.ctx Scenario.no_local false) (equi_join false)
    LeftSide Scenario.scan_A /\
  (exists cond, conditions (equi_join false) = [cond] /\
                JoinCondition.comparison cond = COMPARE_EQUAL) /\
  ratio_or_force (Scenario.ctx Scenario.no_local false) 100 1000000.
Proof.
  apply (index_join_only_when_usable false
           (Scenario.ctx Scenario.no_local false) (equi_join false)
           1000000 100 Scenario.scan_A Scenario.scan_B
           (index_join_on_left (equi_join false) Scenario.scan_A
              Scenario.scan_B (Scenario.idx_on Scenario.A_x))
           LeftSide).
  - vm_compute. reflexivity.
  - reflexivity.
Defined.

Lemma index_join_holds_probed_scan_witness :
  Scenario.scan_A = child RightSide Scenario.scan_B Scenario.scan_A /\
  Scenario.scan_B = child RightSide Scenario.scan_A Scenario.scan_B /\
  exists cond scan bd,
    conditions (equi_join false) = [cond] /\
    Scenario.scan_B = Scan scan /\
    bind_data scan = Some (TableScanBind bd) /\
    [0; 1]%N = column_ids scan /\
    first_match (indexes (info (storage (table bd))))
      (alias (operand RightSide cond)) (Scenario.idx_on Scenario.B_y).
Proof.
  apply (index_join_holds_probed_scan false
           (Scenario.ctx Scenario.no_local false) (equi_join false)
           100 1000000 Scenario.scan_A Scenario.scan_B
           [INTEGER; INTEGER] Scenario.scan_A Scenario.scan_B
           [Scenario.cmp Scenario.A_x COMPARE_EQUAL Scenario.B_y false]
           INNER [0]%N [1]%N [0; 1]%N (Scenario.idx_on Scenario.B_y) true).
  vm_compute. reflexivity.
Defined.

Lemma nested_loop_join_on_general_conditions_witness :
  CreatePlan false (Scenario.ctx Scenario.no_local true) notequal_join
    1000000 100 Scenario.scan_A Scenario.scan_B
  = Returned (PhysicalNestedLoopJoin [INTEGER; INTEGER]
                Scenario.scan_A Scenario.scan_B
                [Scenario.cmp Scenario.A_x COMPARE_NOTEQUAL Scenario.B_y false]
                INNER).
Proof.
  apply (nested_loop_join_on_general_conditions false
           (Scenario.ctx Scenario.no_local true) notequal_join
           1000000 100 Scenario.scan_A Scenario.scan_B).
  - repeat constructor. discriminate.
  - right. eexists. split; [apply list_elem_of_here | reflexivity].
  - right. repeat constructor.
Defined.

Lemma returned_operator_frame_witness :
  type (index_join_on_left (equi_join false) Scenario.scan_A Scenario.scan_B
          (Scenario.idx_on Scenario.A_x))
    ∈ [CROSS_PRODUCT; HASH_JOIN; INDEX_JOIN; PIECEWISE_MERGE_JOIN;
       NESTED_LOOP_JOIN] /\
  op_types (index_join_on_left (equi_join false) Scenario.scan_A
              Scenario.scan_B (Scenario.idx_on Scenario.A_x))
  = [INTEGER; INTEGER] /\
  op_children (index_join_on_left (equi_join false) Scenario.scan_A
                 Scenario.scan_B (Scenario.idx_on Scenario.A_x))
  = [Scenario.scan_B; Scenario.scan_A] /\
  (type (index_join_on_left (equi_join false) Scenario.scan_A Scenario.scan_B
           (Scenario.idx_on Scenario.A_x)) = CROSS_PRODUCT /\
   conditions (equi_join false) = [] \/
   type (index_join_on_left (equi_join false) Scenario.scan_A Scenario.scan_B
           (Scenario.idx_on Scenario.A_x)) <> CROSS_PRODUCT /\
   conditions (equi_join false) <> [] /\
   op_join_type (index_join_on_left (equi_join false) Scenario.scan_A
                   Scenario.scan_B (Scenario.idx_on Scenario.A_x))
   = Some INNER).
Proof.
  apply (returned_operator_frame false
           (Scenario.ctx Scenario.no_local false) (equi_join false)
           1000000 100 Scenario.scan_A Scenario.scan_B).
  vm_compute. reflexivity.
Defined.

Lemma forced_selection_ignores_cardinalities_witness :
  CreatePlan false (Scenario.ctx Scenario.no_local true) (equi_join false)
    100 1000000 Scenario.scan_A Scenario.scan_B
  = CreatePlan false (Scenario.ctx Scenario.no_local true) (equi_join false)
      0 0 Scenario.scan_A Scenario.scan_B.
Proof.
  apply (forced_selection_ignores_cardinalities false
           (Scenario.ctx Scenario.no_local true) (equi_join false)).
  reflexivity.
Defined.

Lemma selection_outside_single_inner_is_context_free_witness :
  CreatePlan false (Scenario.ctx Scenario.no_local true) mixed_join
    1000000 100 Scenario.scan_A Scenario.scan_B
  = CreatePlan false (Scenario.ctx Scenario.local_on_A false) mixed_join
      5 7 Scenario.scan_A Scenario.scan_B.
Proof.
  apply (selection_outside_single_inner_is_context_free false
           (Scenario.ctx Scenario.no_local true)
           (Scenario.ctx Scenario.local_on_A false) mixed_join).
  left. discriminate.
Defined.

Lemma hash_join_outside_single_inner_witness :
  CreatePlan false (Scenario.ctx Scenario.no_local true)
    (Scenario.join SEMI
       [Scenario.cmp Scenario.A_x COMPARE_EQUAL Scenario.B_y true])
    1000000 100 Scenario.scan_A Scenario.scan_B
  = Returned (PhysicalHashJoin [INTEGER; INTEGER]
                Scenario.scan_A Scenario.scan_B
                [Scenario.cmp Scenario.A_x COMPARE_EQUAL Scenario.B_y true]
                SEMI [0]%N [1]%N).
Proof.
  apply (hash_join_outside_single_inner false
           (Scenario.ctx Scenario.no_local true)
           (Scenario.join SEMI
              [Scenario.cmp Scenario.A_x COMPARE_EQUAL Scenario.B_y true])
           1000000 100 Scenario.scan_A Scenario.scan_B).
  - left. discriminate.
  - eexists. split; [apply list_elem_of_here | reflexivity].
  - right. repeat constructor.
Defined.

Lemma zero_estimate_is_not_probed_witness :
  probed_side (hash_join (equi_join false) Scenario.scan_A Scenario.scan_B)
  <> Some LeftSide.
Proof.
  apply (zero_estimate_is_not_probed false
           (Scenario.ctx Scenario.no_local false) (equi_join false)
           0 0 Scenario.scan_A Scenario.scan_B
           (hash_join (equi_join false) Scenario.scan_A Scenario.scan_B)
           LeftSide).
  - reflexivity.
  - reflexivity.
  - vm_compute. reflexivity.
Defined.

(* ===================================================================== *)
(** * Properties of the JSON structure inference *)
(* ===================================================================== *)

Section JSONProperties.
Import JSON.

Lemma bind_Ok {A B} (m : Result A) (k : A -> Result B) b :
  m ≫= k = Ok b <-> exists a, m = Ok a /\ k a = Ok b.
Proof.
  destruct m as [a|e]; cbn; split.
  - eauto.
  - now intros (a' & [= <-] & H).
  - discriminate.
  - now intros (a' & H & _).
Qed.

Lemma bind_Throw {A B} (m : Result A) (k : A -> Result B) e :
  m ≫= k = Throw e <-> m = Throw e \/ exists a, m = Ok a /\ k a = Throw e.
Proof.
  destruct m as [a|e']; cbn; split.
  - eauto.
  - intros [H|(a' & [= <-] & H)]; [discriminate|assumption].
  - intros [= <-]. now left.
  - intros [[= <-]|(a' & H & _)]; [reflexivity|discriminate].
Qed.

Lemma c_str_idemp s : c_str (c_str s) = c_str s.
Proof.
  induction s as [|c s IH]; cbn; [reflexivity|].
  destruct (Ascii.eqb c Ascii.zero) eqn:E; cbn; [reflexivity|].
  now rewrite E, IH.
Qed.

Lemma StringEquals_eq a b : StringEquals a b = true <-> c_str a = c_str b.
Proof. apply String.eqb_eq. Qed.

Lemma StringEquals_neq a b : StringEquals a b = false <-> c_str a <> c_str b.
Proof. apply String.eqb_neq. Qed.

(** [StringEquals] decided from the C strings of its arguments. *)
Lemma StringEquals_decide a b :
  StringEquals a b = bool_decide (c_str a = c_str b).
Proof.
  destruct (StringEquals a b) eqn:E; symmetry.
  - apply bool_decide_eq_true. now apply StringEquals_eq.
  - apply bool_decide_eq_false. now apply StringEquals_neq.
Qed.

Lemma first_occurrences_elem l x : x ∈ first_occurrences l <-> x ∈ l.
Proof.
  induction l as [|y l IH]; cbn; [reflexivity|].
  rewrite !elem_of_cons, list_elem_of_filter, IH.
  destruct (decide (x = y)); intuition (subst; auto).
Qed.

Lemma first_occurrences_NoDup l : NoDup (first_occurrences l).
Proof.
  induction l as [|y l IH]; cbn; [constructor|].
  constructor.
  - rewrite list_elem_of_filter. intros [H _]. now apply H.
  - now apply NoDup_filter.
Qed.

Lemma first_occurrences_snoc l x :
  first_occurrences (l ++ [x]) =
  if decide (x ∈ l) then first_occurrences l else first_occurrences l ++ [x].
Proof.
  induction l as [|y l IH]; cbn.
  - destruct (decide (x ∈ [])) as [H|H]; [now apply not_elem_of_nil in H|].
    reflexivity.
  - rewrite IH. destruct (decide (x = y)) as [->|Hxy].
    + destruct (decide (y ∈ y :: l)) as [_|H]; [|exfalso; apply H; left].
      destruct (decide (y ∈ l)); [reflexivity|].
      rewrite filter_app. cbn. rewrite decide_False by (intros H; now apply H).
      cbn. now rewrite app_nil_r.
    + destruct (decide (x ∈ l)) as [H|H].
      * rewrite decide_True by (now right). reflexivity.
      * rewrite decide_False by (rewrite elem_of_cons; intros [?|?]; auto).
        rewrite filter_app. cbn. rewrite decide_True by assumption.
        reflexivity.
Qed.

Lemma values_of_snoc k ms m :
  values_of k (ms ++ [m]) =
  if decide (member_key m = k) then values_of k ms ++ [snd m]
  else values_of k ms.
Proof.
  unfold values_of. rewrite filter_app, fmap_app. cbn.
  destruct (decide (member_key m = k)); cbn; [reflexivity|].
  now rewrite app_nil_r.
Qed.

Lemma values_of_nil_iff k ms :
  values_of k ms = [] <-> k ∉ member_key <$> ms.
Proof.
  unfold values_of. induction ms as [|m ms IH].
  - cbn. split; [intros _; apply not_elem_of_nil | reflexivity].
  - rewrite filter_cons, fmap_cons, not_elem_of_cons.
    destruct (decide (member_key m = k)) as [E|E].
    + rewrite fmap_cons. split; [discriminate|]. intros [H _]. congruence.
    + rewrite IH. split; [intros H; split; [congruence|assumption]|].
      now intros [_ H].
Qed.

(** The first loop of [GetConsistentArrayStructureObject] lists the keys
    at their first occurrence and stores under each key its values. *)
Lemma collect_members_spec elems :
  fst (collect_members elems)
    = first_occurrences (member_key <$> all_members elems) /\
  forall k,
    snd (collect_members elems) !! k =
    if decide (k ∈ member_key <$> all_members elems)
    then Some (values_of k (all_members elems)) else None.
Proof.
  unfold collect_members, all_members.
  induction (flat_map yyjson_mut_obj_iter elems) as [|m ms IH] using rev_ind.
  - cbn. split; [reflexivity|]. intros k.
    rewrite decide_False by apply not_elem_of_nil. apply lookup_empty.
  - rewrite fold_left_app. cbn [fold_left].
    destruct (fold_left collect_member ms ([], ∅)) as [order kv].
    cbn [fst snd] in IH. destruct IH as [IHo IHk].
    unfold collect_member. fold (member_key m).
    rewrite fmap_app. cbn [fmap list_fmap].
    split.
    + cbn [fst]. rewrite first_occurrences_snoc, IHk, IHo.
      destruct (decide (member_key m ∈ member_key <$> ms)); reflexivity.
    + intros k. cbn [snd]. rewrite values_of_snoc.
      destruct (decide (member_key m = k)) as [<-|Hk].
      * rewrite lookup_insert_eq.
        rewrite decide_True by (rewrite elem_of_app; right; left).
        rewrite IHk. f_equal.
        destruct (decide (member_key m ∈ member_key <$> ms)) as [H|H];
          [reflexivity|].
        cbn. apply values_of_nil_iff in H. now rewrite H.
      * rewrite lookup_insert_ne by assumption. rewrite IHk.
        destruct (decide (k ∈ member_key <$> ms)) as [H|H].
        -- rewrite decide_True by (rewrite elem_of_app; now left). reflexivity.
        -- rewrite decide_False; [reflexivity|].
           rewrite elem_of_app, list_elem_of_singleton. intros [?|?]; auto.
Qed.

(* ---------- depth ---------- *)

Lemma depth_list_cons e l : depth_list (e :: l) = depth e `max` depth_list l.
Proof. reflexivity. Qed.

Lemma depth_list_le l n :
  (depth_list l <= n)%nat <-> Forall (fun e => (depth e <= n)%nat) l.
Proof.
  induction l as [|e l IH]; cbn.
  - split; [constructor | lia].
  - rewrite Forall_cons, <- IH. fold (depth_list l). lia.
Qed.

Lemma depth_Arr elems : depth (Arr elems) = S (depth_list elems).
Proof. reflexivity. Qed.

Lemma depth_Obj members : depth (Obj members) = S (depth_list (snd <$> members)).
Proof.
  cbn. f_equal. induction members as [|m ms IH]; cbn; [reflexivity|].
  now rewrite IH.
Qed.

Lemma depth_arr_iter v e :
  e ∈ yyjson_mut_arr_iter v -> (depth e < depth v)%nat.
Proof.
  destruct v; cbn [yyjson_mut_arr_iter]; try (intros H; now apply not_elem_of_nil in H).
  intros H. rewrite depth_Arr.
  assert (Hle : (depth_list elems <= depth_list elems)%nat) by lia.
  apply depth_list_le in Hle. rewrite List.Forall_forall in Hle.
  apply list_elem_of_In in H. specialize (Hle e H). lia.
Qed.

Lemma depth_obj_iter v m :
  m ∈ yyjson_mut_obj_iter v -> (depth (snd m) < depth v)%nat.
Proof.
  destruct v; cbn [yyjson_mut_obj_iter]; try (intros H; now apply not_elem_of_nil in H).
  intros H. rewrite depth_Obj.
  assert (Hle : (depth_list (snd <$> members) <= depth_list (snd <$> members))%nat) by lia.
  apply depth_list_le in Hle. rewrite List.Forall_forall in Hle.
  assert (Hin : In (snd m) (snd <$> members)).
  { apply list_elem_of_In, list_elem_of_fmap. eauto. }
  specialize (Hle _ Hin). lia.
Qed.

Lemma child_of_depth elems l :
  Forall (child_of elems) l ->
  (1 <= depth_list elems)%nat ->
  (depth_list l < depth_list elems)%nat.
Proof.
  intros Hl Hpos.
  assert (H : (depth_list l <= pred (depth_list elems))%nat); [|lia].
  apply depth_list_le. eapply Forall_impl; [exact Hl|]. cbn.
  intros c (v & Hv & Hc).
  assert (Hdv : (depth v <= depth_list elems)%nat).
  { assert (Hle : (depth_list elems <= depth_list elems)%nat) by lia.
    apply depth_list_le in Hle. rewrite List.Forall_forall in Hle.
    apply Hle. now apply list_elem_of_In. }
  destruct Hc as [Hc|(k & Hc)].
  - apply depth_arr_iter in Hc. lia.
  - apply depth_obj_iter in Hc. cbn in Hc. lia.
Qed.

Lemma nested_children elems :
  Forall (child_of elems) (flat_map yyjson_mut_arr_iter elems).
Proof.
  apply List.Forall_forall. intros c Hc. apply in_flat_map in Hc as (v & Hv & Hc).
  exists v. split; [now apply list_elem_of_In|]. left. now apply list_elem_of_In.
Qed.

Lemma values_of_children elems k :
  Forall (child_of elems) (values_of k (all_members elems)).
Proof.
  apply List.Forall_forall. intros c Hc.
  apply list_elem_of_In in Hc. unfold values_of in Hc.
  apply list_elem_of_fmap in Hc as (m & -> & Hm).
  apply list_elem_of_filter in Hm as [_ Hm].
  apply list_elem_of_In, in_flat_map in Hm as (v & Hv & Hm).
  exists v. split; [now apply list_elem_of_In|]. right. exists (fst m).
  destruct m. now apply list_elem_of_In.
Qed.

(* ---------- the loop ---------- *)

Lemma get_str_type v :
  is_Some (yyjson_mut_get_str v) <-> yyjson_get_type v = YYJSON_TYPE_STR.
Proof.
  destruct v; cbn; split; try discriminate; eauto; intros [x H]; discriminate.
Qed.

Lemma GetMaxTypeString_Some J ndebug t e r :
  GetMaxTypeString J ndebug (Some t) (Some e) = Ok r -> is_Some r.
Proof.
  unfold GetMaxTypeString.
  destruct (StringEquals t e); [intros [= <-]; eauto|].
  destruct (EitherEquals t e (TYPE_STRING_VARCHAR J)); [intros [= <-]; eauto|].
  destruct (EitherEquals t e (TYPE_STRING_DOUBLE J)); [intros [= <-]; eauto|].
  destruct (EitherEquals t e (TYPE_STRING_BIGINT J)); [intros [= <-]; eauto|].
  destruct (EitherEquals t e (TYPE_STRING_UBIGINT J)); [intros [= <-]; eauto|].
  intros H. apply bind_Ok in H as (u & _ & [= <-]). eauto.
Qed.

Lemma consistency_step_inv J ndebug st e st' :
  str_inv st ->
  consistency_step J ndebug st e = Ok st' ->
  str_inv st' /\
  (fst st' = fst st \/ fst st' = yyjson_get_type e).
Proof.
  destruct st as [ty ts]. unfold consistency_step, str_inv. cbn [fst snd].
  intros Hinv.
  destruct (is_null_type_string J ts); [intros [= <-]; cbn; split;
    [apply get_str_type | now right]|].
  destruct (is_null_type_string J (yyjson_mut_get_str e));
    [intros [= <-]; cbn; split; [assumption | now left]|].
  case_bool_decide as Hty; cbn [negb]; [|discriminate].
  intros H. apply bind_Ok in H as (r & Hr & [= <-]). cbn. split; [|now left].
  destruct ts as [t|], (yyjson_mut_get_str e) as [s|] eqn:Es.
  - apply GetMaxTypeString_Some in Hr.
    split; [intros _; apply Hinv; eauto | intros _; assumption].
  - cbn in Hr. injection Hr as <-. assumption.
  - cbn in Hr. injection Hr as <-.
    assert (is_Some (yyjson_mut_get_str e)) as Hs by (rewrite Es; eauto).
    apply get_str_type in Hs. split; [congruence|eauto].
  - cbn in Hr. injection Hr as <-. assumption.
Qed.

Lemma consistency_loop_inv J ndebug elems : forall st st',
  str_inv st ->
  consistency_loop J ndebug st elems = Ok st' ->
  str_inv st' /\
  (fst st' = fst st \/ exists e, e ∈ elems /\ fst st' = yyjson_get_type e).
Proof.
  induction elems as [|e rest IH]; intros st st' Hinv H.
  - cbn in H. injection H as <-. auto.
  - cbn in H. apply bind_Ok in H as (st1 & H1 & H2).
    apply consistency_step_inv in H1 as [Hinv1 Hty1]; [|assumption].
    apply IH in H2 as [Hinv2 Hty2]; [|assumption].
    split; [assumption|].
    destruct Hty2 as [Hty2|(x & Hx & Hty2)].
    + destruct Hty1 as [Hty1|Hty1]; [left; congruence|].
      right. exists e. split; [left|congruence].
    + right. exists x. split; [now right|assumption].
Qed.

Lemma initial_str_inv v : str_inv (yyjson_get_type v, yyjson_mut_get_str v).
Proof. apply get_str_type. Qed.

(** After the loop, [type] is the type of one of the elements. *)
Lemma loop_type_of_elem J ndebug first others ty ts :
  consistency_loop J ndebug
    (yyjson_get_type first, yyjson_mut_get_str first) others = Ok (ty, ts) ->
  (is_Some ts <-> ty = YYJSON_TYPE_STR) /\
  exists e, e ∈ first :: others /\ ty = yyjson_get_type e.
Proof.
  intros H. apply consistency_loop_inv in H as [Hinv Hty];
    [|apply initial_str_inv].
  split; [exact Hinv|]. cbn in Hty.
  destruct Hty as [->|(e & He & ->)].
  - exists first. split; [left|reflexivity].
  - exists e. split; [now right|reflexivity].
Qed.

Lemma container_depth elems e :
  e ∈ elems ->
  yyjson_get_type e = YYJSON_TYPE_ARR \/ yyjson_get_type e = YYJSON_TYPE_OBJ ->
  (1 <= depth_list elems)%nat.
Proof.
  intros He Hty.
  assert (Hd : (1 <= depth e)%nat).
  { destruct e; cbn in Hty; destruct Hty; try discriminate; cbn; lia. }
  assert (Hle : (depth_list elems <= depth_list elems)%nat) by lia.
  apply depth_list_le in Hle. rewrite List.Forall_forall in Hle.
  apply list_elem_of_In in He. specialize (Hle e He). lia.
Qed.

(* ---------- the recursion ---------- *)

Lemma mapM_Result_ext {A B} (f g : A -> Result B) l :
  Forall (fun x => f x = g x) l -> mapM f l = mapM g l.
Proof.
  induction 1 as [|x l Hx _ IH]; cbn; [reflexivity|].
  now rewrite Hx, IH.
Qed.

(** The object case merges, key by key, the values the objects hold
    under that key, the keys at their first occurrence. *)
Lemma GetConsistentArrayStructureObject_spec rec elems :
  GetConsistentArrayStructureObject rec elems =
  (members ←
     mapM (fun k =>
             val ← rec (values_of k (all_members elems));
             Ok (k, val))
       (first_occurrences (member_key <$> all_members elems));
   Ok (Obj members)).
Proof.
  unfold GetConsistentArrayStructureObject.
  destruct (collect_members_spec elems) as [Ho Hk].
  destruct (collect_members elems) as [order kv]. cbn [fst snd] in Ho, Hk.
  subst order. f_equal. apply mapM_Result_ext, List.Forall_forall.
  intros k Hin. rewrite Hk.
  apply list_elem_of_In in Hin. rewrite first_occurrences_elem in Hin.
  now rewrite decide_True by assumption.
Qed.

Lemma body_ext J ndebug rec1 rec2 elems :
  ((1 <= depth_list elems)%nat ->
   forall l, Forall (child_of elems) l -> rec1 l = rec2 l) ->
  GetConsistentArrayStructure_body J ndebug rec1 elems
  = GetConsistentArrayStructure_body J ndebug rec2 elems.
Proof.
  intros Hrec. unfold GetConsistentArrayStructure_body.
  destruct elems as [|first others]; [reflexivity|].
  destruct (consistency_loop _ _ _ _) as [[ty ts]|e] eqn:Hloop; [|reflexivity].
  cbn [mbind Result_bind].
  apply loop_type_of_elem in Hloop as [_ (e & He & ->)].
  destruct (yyjson_get_type e) eqn:Hty; try reflexivity.
  - unfold GetConsistentArrayStructureArray.
    rewrite Hrec; [reflexivity| |apply nested_children].
    eapply container_depth; eauto.
  - rewrite !GetConsistentArrayStructureObject_spec. f_equal.
    apply mapM_Result_ext, List.Forall_forall. intros k _.
    rewrite Hrec; [reflexivity| |apply values_of_children].
    eapply container_depth; eauto.
Qed.

Lemma upto_stable J ndebug fuel : forall fuel' elems,
  (depth_list elems < fuel)%nat ->
  (depth_list elems < fuel')%nat ->
  GetConsistentArrayStructure_upto J ndebug fuel elems
  = GetConsistentArrayStructure_upto J ndebug fuel' elems.
Proof.
  induction fuel as [|f IH]; intros [|f'] elems H1 H2; try lia.
  cbn [GetConsistentArrayStructure_upto]. apply body_ext.
  intros Hpos l Hl. apply child_of_depth in Hl; [|assumption].
  apply IH; lia.
Qed.

(** The equation of the source function: [GetConsistentArrayStructure]
    is its body applied to itself. *)
Lemma GetConsistentArrayStructure_unfold J ndebug elems :
  GetConsistentArrayStructure J ndebug elems
  = GetConsistentArrayStructure_body J ndebug
      (GetConsistentArrayStructure J ndebug) elems.
Proof.
  unfold GetConsistentArrayStructure at 1.
  cbn [GetConsistentArrayStructure_upto]. apply body_ext.
  intros Hpos l Hl. apply child_of_depth in Hl; [|assumption].
  unfold GetConsistentArrayStructure. apply upto_stable; lia.
Qed.

(** Induction on the nesting depth of the argument. *)
Lemma depth_induction (P : list yyjson_mut_val -> Prop) :
  (forall elems,
     (forall l, (depth_list l < depth_list elems)%nat -> P l) -> P elems) ->
  forall elems, P elems.
Proof.
  intros H elems. remember (depth_list elems) as n eqn:En.
  revert elems En. induction (lt_wf n) as [n _ IH]. intros elems ->.
  apply H. intros l Hl. eapply IH; [exact Hl|reflexivity].
Qed.

(** Induction on a value, with the hypothesis on every element of an
    array and on every member of an object. *)
Lemma yyjson_val_nested_ind (P : yyjson_val -> Prop) :
  (forall v, is_scalar v -> P v) ->
  (forall elems, Forall P elems -> P (Arr elems)) ->
  (forall members, Forall (fun m => P (snd m)) members -> P (Obj members)) ->
  forall v, P v.
Proof.
  intros Hscalar HArr HObj. fix IH 1. intros v.
  destruct v as [s| |b|n|z|f|s|elems|members];
    try (apply Hscalar; exact I).
  - apply HArr. induction elems as [|x r IHr]; constructor.
    + apply IH.
    + exact IHr.
  - apply HObj. induction members as [|m r IHr]; constructor.
    + apply IH.
    + exact IHr.
Qed.

Lemma mapM_Result_Ok {A B} (f : A -> Result B) l k :
  mapM f l = Ok k <-> Forall2 (fun x y => f x = Ok y) l k.
Proof.
  revert k. induction l as [|x l IH]; intros k; cbn.
  - split; [intros [= <-]; constructor | intros H; now inversion H].
  - split.
    + intros H. apply bind_Ok in H as (y & Hy & H).
      apply bind_Ok in H as (k' & Hk & [= <-]).
      constructor; [assumption|now apply IH].
    + intros H. inversion H as [|? y ? k' Hy Hk]; subst.
      apply IH in Hk. now rewrite Hy, Hk.
Qed.

Lemma mapM_Result_Throw {A B} (f : A -> Result B) l e :
  mapM f l = Throw e -> exists x, x ∈ l /\ f x = Throw e.
Proof.
  induction l as [|x l IH]; cbn; [discriminate|].
  intros H. apply bind_Throw in H as [H|(y & Hy & H)].
  - exists x. split; [left|assumption].
  - apply bind_Throw in H as [H|(k & Hk & H)]; [|discriminate].
    destruct (IH H) as (x' & Hx' & Hf). exists x'. split; [now right|assumption].
Qed.

Lemma GetMaxTypeString_Throw J ndebug ts es e :
  GetMaxTypeString J ndebug ts es = Throw e -> e = AssertionTriggered.
Proof.
  unfold GetMaxTypeString, D_ASSERT.
  destruct ts as [t|], es as [s|]; try discriminate.
  destruct (StringEquals t s); [discriminate|].
  destruct (EitherEquals t s (TYPE_STRING_VARCHAR J)); [discriminate|].
  destruct (EitherEquals t s (TYPE_STRING_DOUBLE J)); [discriminate|].
  destruct (EitherEquals t s (TYPE_STRING_BIGINT J)); [discriminate|].
  destruct (EitherEquals t s (TYPE_STRING_UBIGINT J)); [discriminate|].
  destruct ndebug; [discriminate|].
  destruct (_ && _); [discriminate|]. cbn. congruence.
Qed.

Lemma consistency_step_Throw J ndebug st elem e :
  consistency_step J ndebug st elem = Throw e ->
  e = InvalidInputException "Inconsistent JSON structure" \/
  e = AssertionTriggered.
Proof.
  destruct st as [ty ts]. unfold consistency_step.
  destruct (is_null_type_string J ts); [discriminate|].
  destruct (is_null_type_string J (yyjson_mut_get_str elem)); [discriminate|].
  case_bool_decide; cbn [negb].
  - intros Hm. apply bind_Throw in Hm as [Hm|(r & _ & Hm)]; [|discriminate].
    right. eapply GetMaxTypeString_Throw; eauto.
  - intros [= <-]. now left.
Qed.

Lemma consistency_loop_Throw J ndebug elems : forall st e,
  consistency_loop J ndebug st elems = Throw e ->
  e = InvalidInputException "Inconsistent JSON structure" \/
  e = AssertionTriggered.
Proof.
  induction elems as [|x rest IH]; intros st e; cbn; [discriminate|].
  intros H. apply bind_Throw in H as [H|(st' & _ & H)].
  - eapply consistency_step_Throw; eauto.
  - eapply IH; eauto.
Qed.

(** What the body throws it throws itself, as one of the two exceptions
    of the source or the assertion, or it passes on from a recursive
    call on children. *)
Lemma body_Throw J ndebug rec elems e :
  GetConsistentArrayStructure_body J ndebug rec elems = Throw e ->
  e = InvalidInputException "Inconsistent JSON structure" \/
  e = InternalException
        "Unexpected JSON type arrived at GetConsistentArrayStructure" \/
  e = AssertionTriggered \/
  ((1 <= depth_list elems)%nat /\
   exists l, Forall (child_of elems) l /\ rec l = Throw e).
Proof.
  unfold GetConsistentArrayStructure_body.
  destruct elems as [|first others]; [discriminate|].
  destruct (consistency_loop _ _ _ _) as [[ty ts]|e'] eqn:Hloop.
  2:{ cbn. intros [= <-]. apply consistency_loop_Throw in Hloop. tauto. }
  cbn [mbind Result_bind].
  apply loop_type_of_elem in Hloop as [Hinv (x & Hx & ->)].
  destruct (yyjson_get_type x) eqn:Hty;
    try (intros [= <-]; tauto).
  - (* string *)
    destruct ts as [s|]; [discriminate|].
    exfalso. destruct Hinv as [_ Hinv]. destruct (Hinv eq_refl). discriminate.
  - (* array *)
    unfold GetConsistentArrayStructureArray. intros H.
    apply bind_Throw in H as [H|(v & _ & H)]; [|discriminate].
    do 3 right. split; [eapply container_depth; eauto|].
    eexists. split; [apply nested_children|exact H].
  - (* object *)
    rewrite GetConsistentArrayStructureObject_spec. intros H.
    apply bind_Throw in H as [H|(v & _ & H)]; [|discriminate].
    apply mapM_Result_Throw in H as (k & _ & H).
    apply bind_Throw in H as [H|(v & _ & H)]; [|discriminate].
    do 3 right. split; [eapply container_depth; eauto|].
    eexists. split; [apply values_of_children|exact H].
Qed.

(** X12. Whatever values it is given, [GetConsistentArrayStructure] fails
    in three ways only: the exception for an inconsistent structure, the
    exception for an unexpected type, and the assertion of
    [GetMaxTypeString]. The lookup [key_values.at] finds every key, no
    string value is built from a null pointer, and the recursion ends. *)
Theorem GetConsistentArrayStructure_throws_only J ndebug elems e :
  GetConsistentArrayStructure J ndebug elems = Throw e ->
  e = InvalidInputException "Inconsistent JSON structure" \/
  e = InternalException
        "Unexpected JSON type arrived at GetConsistentArrayStructure" \/
  e = AssertionTriggered.
Proof.
  revert e. induction elems as [elems IH] using depth_induction. intros e H.
  rewrite GetConsistentArrayStructure_unfold in H.
  apply body_Throw in H as [H|[H|[H|(Hpos & l & Hl & H)]]]; auto.
  eapply IH; [|exact H]. now apply child_of_depth.
Qed.

(* ---------- structures ---------- *)

Lemma known_name_c_str J s : known_name J (c_str s) <-> known_name J s.
Proof. unfold known_name. now rewrite c_str_idemp. Qed.

Lemma is_structure_type J v :
  is_structure J v = true ->
  yyjson_get_type v = YYJSON_TYPE_STR \/
  yyjson_get_type v = YYJSON_TYPE_ARR \/
  yyjson_get_type v = YYJSON_TYPE_OBJ.
Proof. destruct v; cbn; try discriminate; auto. Qed.

Lemma is_structure_children J elems l :
  Forall (fun v => is_structure J v = true) elems ->
  Forall (child_of elems) l ->
  Forall (fun v => is_structure J v = true) l.
Proof.
  intros He Hl. eapply Forall_impl; [exact Hl|]. cbn.
  intros c (v & Hv & Hc). rewrite List.Forall_forall in He.
  apply list_elem_of_In in Hv. specialize (He v Hv).
  destruct Hc as [Hc|(k & Hc)].
  - destruct v; cbn in Hc; try (now apply not_elem_of_nil in Hc).
    cbn in He. rewrite forallb_forall in He. apply He.
    now apply list_elem_of_In.
  - destruct v; cbn in Hc; try (now apply not_elem_of_nil in Hc).
    cbn in He. rewrite forallb_forall in He.
    apply list_elem_of_In in Hc. apply (He _ Hc).
Qed.

Lemma is_structure_str J v s :
  is_structure J v = true -> yyjson_mut_get_str v = Some s -> known_name J s.
Proof.
  destruct v; cbn; try discriminate. intros H [= <-].
  now apply bool_decide_eq_true in H.
Qed.

Lemma constant_known J s : s ∈ known_names J -> known_name J s.
Proof. intros H. unfold known_name. apply list_elem_of_fmap. eauto. Qed.

Lemma EitherEquals_false s1 s2 t :
  EitherEquals s1 s2 t = false ->
  c_str s1 <> c_str t /\ c_str s2 <> c_str t.
Proof.
  unfold EitherEquals. rewrite orb_false_iff, !StringEquals_neq. auto.
Qed.

(** On two known names other than the name of null, [GetMaxTypeString]
    returns a known name and its assertion holds. *)
Lemma GetMaxTypeString_known J ndebug t e :
  known_name J t -> known_name J e ->
  is_null_type_string J (Some t) = false ->
  is_null_type_string J (Some e) = false ->
  exists r, GetMaxTypeString J ndebug (Some t) (Some e) = Ok (Some r) /\
            known_name J r.
Proof.
  intros Ht He Hnt Hne. cbn in Hnt, Hne.
  apply StringEquals_neq in Hnt, Hne.
  unfold GetMaxTypeString.
  destruct (StringEquals t e); [eauto|].
  destruct (EitherEquals t e (TYPE_STRING_VARCHAR J)) eqn:EV.
  { eexists; split; [reflexivity|]. apply constant_known.
    unfold known_names, scalar_type_names.
    repeat (apply list_elem_of_here || apply list_elem_of_further). }
  destruct (EitherEquals t e (TYPE_STRING_DOUBLE J)) eqn:ED.
  { eexists; split; [reflexivity|]. apply constant_known.
    unfold known_names, scalar_type_names.
    repeat (apply list_elem_of_here || apply list_elem_of_further). }
  destruct (EitherEquals t e (TYPE_STRING_BIGINT J)) eqn:EI.
  { eexists; split; [reflexivity|]. apply constant_known.
    unfold known_names, scalar_type_names.
    repeat (apply list_elem_of_here || apply list_elem_of_further). }
  destruct (EitherEquals t e (TYPE_STRING_UBIGINT J)) eqn:EU.
  { eexists; split; [reflexivity|]. apply constant_known.
    unfold known_names, scalar_type_names.
    repeat (apply list_elem_of_here || apply list_elem_of_further). }
  apply EitherEquals_false in EV as [V1 V2], ED as [D1 D2],
    EI as [I1 I2], EU as [U1 U2].
  unfold known_name, known_names, scalar_type_names in Ht, He.
  cbn in Ht, He. rewrite !elem_of_cons in Ht, He.
  assert (Bt : c_str t = c_str (TYPE_STRING_BOOLEAN J)).
  { destruct Ht as [?|[?|[?|[?|[?|[?|Hx]]]]]]; try congruence.
    now apply not_elem_of_nil in Hx. }
  assert (Be : c_str e = c_str (TYPE_STRING_BOOLEAN J)).
  { destruct He as [?|[?|[?|[?|[?|[?|Hx]]]]]]; try congruence.
    now apply not_elem_of_nil in Hx. }
  apply StringEquals_eq in Bt, Be. rewrite Bt, Be.
  unfold D_ASSERT. cbn.
  exists (TYPE_STRING_BOOLEAN J).
  split; [now destruct ndebug|]. apply constant_known.
  unfold known_names, scalar_type_names.
  repeat (apply list_elem_of_here || apply list_elem_of_further).
Qed.

Lemma consistency_step_known J ndebug st elem :
  known_state J st ->
  is_structure J elem = true ->
  (exists st', consistency_step J ndebug st elem = Ok st' /\ known_state J st')
  \/ consistency_step J ndebug st elem
     = Throw (InvalidInputException "Inconsistent JSON structure").
Proof.
  destruct st as [ty ts]. unfold known_state, consistency_step. cbn [snd].
  intros Hst He.
  destruct (is_null_type_string J ts) eqn:Hnt.
  { left. eexists. split; [reflexivity|]. cbn.
    destruct (yyjson_mut_get_str elem) eqn:Es; [|exact I].
    eapply is_structure_str; eauto. }
  destruct (is_null_type_string J (yyjson_mut_get_str elem)) eqn:Hne.
  { left. eexists. split; [reflexivity|]. exact Hst. }
  case_bool_decide; cbn [negb]; [|now right].
  left. destruct ts as [t|], (yyjson_mut_get_str elem) as [s|] eqn:Es.
  - destruct (GetMaxTypeString_known J ndebug t s) as (r & Hr & Hk); auto.
    { eapply is_structure_str; eauto. }
    rewrite Hr. cbn. eauto.
  - cbn. eauto.
  - cbn. eexists. split; [reflexivity|]. cbn.
    eapply is_structure_str; eauto.
  - cbn. eauto.
Qed.

Lemma consistency_loop_known J ndebug elems : forall st,
  known_state J st ->
  Forall (fun v => is_structure J v = true) elems ->
  (exists st', consistency_loop J ndebug st elems = Ok st' /\ known_state J st')
  \/ consistency_loop J ndebug st elems
     = Throw (InvalidInputException "Inconsistent JSON structure").
Proof.
  induction elems as [|x rest IH]; intros st Hst Hall.
  - left. cbn. eauto.
  - inversion Hall as [|? ? Hx Hrest]; subst. cbn.
    destruct (consistency_step_known J ndebug st x Hst Hx)
      as [(st1 & H1 & Hk1)|H1]; rewrite H1; cbn; [|now right].
    now apply IH.
Qed.

Lemma mapM_Result_cases {A B} (f : A -> Result B) (Q : B -> Prop) e0 l :
  Forall (fun x => (exists y, f x = Ok y /\ Q y) \/ f x = Throw e0) l ->
  (exists k, mapM f l = Ok k /\ Forall Q k) \/ mapM f l = Throw e0.
Proof.
  induction 1 as [|x l Hx _ IH]; cbn.
  - left. eauto.
  - destruct Hx as [(y & Hy & Qy)|Hx]; rewrite ?Hy, ?Hx; cbn; [|now right].
    destruct IH as [(k & Hk & Qk)|Hk]; rewrite Hk; cbn; [|now right].
    left. eexists. split; [reflexivity|]. now constructor.
Qed.

(** On structures, [GetConsistentArrayStructure] returns a structure or
    reports an inconsistent structure. *)
Lemma GetConsistentArrayStructure_structure J ndebug elems :
  Forall (fun v => is_structure J v = true) elems ->
  (exists v, GetConsistentArrayStructure J ndebug elems = Ok v /\
             is_structure J v = true)
  \/ GetConsistentArrayStructure J ndebug elems
     = Throw (InvalidInputException "Inconsistent JSON structure").
Proof.
  induction elems as [elems IH] using depth_induction. intros Hall.
  rewrite GetConsistentArrayStructure_unfold.
  unfold GetConsistentArrayStructure_body.
  destruct elems as [|first others].
  { left. cbn. eexists. split; [reflexivity|]. cbn.
    apply bool_decide_eq_true, known_name_c_str, constant_known. left. }
  inversion Hall as [|? ? Hfirst Hothers]; subst.
  destruct (consistency_loop_known J ndebug others
              (yyjson_get_type first, yyjson_mut_get_str first))
    as [([ty ts] & Hloop & Hk)|Hloop]; auto.
  { unfold known_state. cbn.
    destruct (yyjson_mut_get_str first) eqn:Es; [|exact I].
    eapply is_structure_str; eauto. }
  2:{ rewrite Hloop. now right. }
  rewrite Hloop. cbn [mbind Result_bind].
  apply loop_type_of_elem in Hloop as [Hinv (x & Hx & ->)].
  assert (Hsx : is_structure J x = true).
  { rewrite List.Forall_forall in Hall. apply Hall. now apply list_elem_of_In. }
  destruct (is_structure_type J x Hsx) as [Hty|[Hty|Hty]]; rewrite Hty.
  - (* string *)
    destruct ts as [s|].
    + left. cbn. eexists. split; [reflexivity|]. cbn.
      apply bool_decide_eq_true, known_name_c_str. exact Hk.
    + exfalso. destruct Hinv as [_ Hinv]. destruct (Hinv Hty). discriminate.
  - (* array *)
    unfold GetConsistentArrayStructureArray.
    destruct (IH (flat_map yyjson_mut_arr_iter (first :: others)))
      as [(v & Hv & Hs)|Hv].
    + apply child_of_depth; [apply nested_children|].
      eapply container_depth; eauto.
    + eapply is_structure_children; [exact Hall|apply nested_children].
    + rewrite Hv. left. cbn. eexists. split; [reflexivity|]. cbn.
      now rewrite Hs.
    + rewrite Hv. now right.
  - (* object *)
    rewrite GetConsistentArrayStructureObject_spec.
    match goal with
    | |- context [mapM ?f ?l] =>
        destruct (mapM_Result_cases f
                    (fun m => is_structure J (snd m) = true)
                    (InvalidInputException "Inconsistent JSON structure") l)
          as [(k & Hk' & Hall')|Hk']
    end.
    + apply List.Forall_forall. intros k _.
      destruct (IH (values_of k (all_members (first :: others))))
        as [(v & Hv & Hs)|Hv].
      * apply child_of_depth; [apply values_of_children|].
        eapply container_depth; eauto.
      * eapply is_structure_children; [exact Hall|apply values_of_children].
      * left. rewrite Hv. cbn. eauto.
      * right. now rewrite Hv.
    + rewrite Hk'. left. cbn. eexists. split; [reflexivity|]. cbn.
      apply forallb_forall. rewrite List.Forall_forall in Hall'. exact Hall'.
    + rewrite Hk'. now right.
Qed.

(** X13. When [ValTypeToString] returns type names only on scalars,
    [BuildStructure] returns a structure (type names, arrays and objects
    of structures) or throws the exception for an inconsistent structure,
    or passes on what [ValTypeToString] throws: neither the exception
    for an unexpected type nor the assertion can arise. *)
Theorem BuildStructure_outcome J ndebug val :
  (forall x s, is_scalar x -> ValTypeToString J x = Ok s -> known_name J s) ->
  match BuildStructure J ndebug val with
  | Ok v => is_structure J v = true
  | Throw e =>
      e = InvalidInputException "Inconsistent JSON structure" \/
      exists x, is_scalar x /\ ValTypeToString J x = Throw e
  end.
Proof.
  intros Hnames.
  induction val as [v Hv|elems IH|members IH] using yyjson_val_nested_ind.
  - assert (Hb : BuildStructure J ndebug v
                 = (s ← ValTypeToString J v; yyjson_mut_str (Some s)))
      by (destruct v; try reflexivity; destruct Hv).
    rewrite Hb. destruct (ValTypeToString J v) as [s|e] eqn:Es; cbn.
    + apply bool_decide_eq_true, known_name_c_str. eauto.
    + right. eauto.
  - cbn [BuildStructure].
    destruct (mapM (BuildStructure J ndebug) elems) as [structs|e] eqn:Hm;
      cbn [mbind Result_bind].
    + apply mapM_Result_Ok in Hm.
      assert (Hall : Forall (fun v => is_structure J v = true) structs).
      { clear -IH Hm. induction Hm as [|x y l k Hxy _ IHm]; [constructor|].
        inversion IH as [|? ? Hx Hl]; subst. constructor; [|now apply IHm].
        now rewrite Hxy in Hx. }
      destruct (GetConsistentArrayStructure_structure J ndebug structs Hall)
        as [(v & Hv & Hs)|Hv]; rewrite Hv; cbn; [|now left].
      now rewrite Hs.
    + apply mapM_Result_Throw in Hm as (x & Hx & Hm).
      rewrite List.Forall_forall in IH. apply list_elem_of_In in Hx.
      specialize (IH x Hx). now rewrite Hm in IH.
  - cbn [BuildStructure].
    match goal with |- context [mapM ?f members] => set (g := f) end.
    destruct (mapM g members) as [ms|e] eqn:Hm; cbn.
    + apply mapM_Result_Ok in Hm. apply forallb_forall.
      apply List.Forall_forall.
      clear -IH Hm. induction Hm as [|x y l k Hxy _ IHm]; [constructor|].
      inversion IH as [|? ? Hx Hl]; subst. constructor; [|now apply IHm].
      subst g. cbn in Hxy. apply bind_Ok in Hxy as (v & Hv & [= <-]).
      cbn. now rewrite Hv in Hx.
    + apply mapM_Result_Throw in Hm as (x & Hx & Hm).
      rewrite List.Forall_forall in IH. apply list_elem_of_In in Hx.
      specialize (IH x Hx). subst g. cbn in Hm.
      apply bind_Throw in Hm as [Hm|(v & _ & Hm)]; [|discriminate].
      now rewrite Hm in IH.
Qed.

(* ---------- nulls ---------- *)

Lemma null_structure_Str J v :
  is_null_structure J v = true ->
  exists s, v = Str s /\ c_str s = c_str (TYPE_STRING_NULL J).
Proof.
  unfold is_null_structure. destruct v; cbn; try discriminate.
  intros H. apply StringEquals_eq in H. eauto.
Qed.

Lemma flat_map_arr_iter_filter J l :
  flat_map yyjson_mut_arr_iter
    (filter (fun v => is_null_structure J v = false) l)
  = flat_map yyjson_mut_arr_iter l.
Proof.
  induction l as [|v l IH]; [reflexivity|].
  rewrite filter_cons. destruct (is_null_structure J v) eqn:E.
  - rewrite decide_False by discriminate.
    apply null_structure_Str in E as (s & -> & _). cbn. exact IH.
  - rewrite decide_True by reflexivity. cbn. now rewrite IH.
Qed.

Lemma all_members_filter J l :
  all_members (filter (fun v => is_null_structure J v = false) l)
  = all_members l.
Proof.
  unfold all_members. induction l as [|v l IH]; [reflexivity|].
  rewrite filter_cons. destruct (is_null_structure J v) eqn:E.
  - rewrite decide_False by discriminate.
    apply null_structure_Str in E as (s & -> & _). cbn. exact IH.
  - rewrite decide_True by reflexivity. cbn. now rewrite IH.
Qed.

(** What [GetMaxTypeString] returns: one of its arguments or one of the
    five scalar type names. *)
Lemma GetMaxTypeString_result J ndebug ts es r :
  GetMaxTypeString J ndebug ts es = Ok r ->
  r = ts \/ r = es \/ exists c, c ∈ scalar_type_names J /\ r = Some c.
Proof.
  unfold GetMaxTypeString, scalar_type_names.
  destruct ts as [t|], es as [s|]; try (intros [= <-]; auto).
  destruct (StringEquals t s); [intros [= <-]; auto|].
  destruct (EitherEquals t s (TYPE_STRING_VARCHAR J)).
  { intros [= <-]. do 2 right. eexists. split; [|reflexivity].
    repeat (apply list_elem_of_here || apply list_elem_of_further). }
  destruct (EitherEquals t s (TYPE_STRING_DOUBLE J)).
  { intros [= <-]. do 2 right. eexists. split; [|reflexivity].
    repeat (apply list_elem_of_here || apply list_elem_of_further). }
  destruct (EitherEquals t s (TYPE_STRING_BIGINT J)).
  { intros [= <-]. do 2 right. eexists. split; [|reflexivity].
    repeat (apply list_elem_of_here || apply list_elem_of_further). }
  destruct (EitherEquals t s (TYPE_STRING_UBIGINT J)).
  { intros [= <-]. do 2 right. eexists. split; [|reflexivity].
    repeat (apply list_elem_of_here || apply list_elem_of_further). }
  intros H. apply bind_Ok in H as (u & _ & [= <-]).
  do 2 right. eexists. split; [|reflexivity].
  repeat (apply list_elem_of_here || apply list_elem_of_further).
Qed.

Lemma scalar_name_not_null J c :
  null_name_apart J -> c ∈ scalar_type_names J ->
  is_null_type_string J (Some c) = false.
Proof.
  intros Hapart Hc. cbn. apply StringEquals_neq. intros E.
  apply Hapart. rewrite <- E. apply list_elem_of_fmap. eauto.
Qed.

Lemma consistency_step_nonnull J ndebug st elem st' :
  null_name_apart J ->
  is_null_type_string J (snd st) = false ->
  is_null_structure J elem = false ->
  consistency_step J ndebug st elem = Ok st' ->
  is_null_type_string J (snd st') = false.
Proof.
  destruct st as [ty ts]. unfold consistency_step, is_null_structure.
  cbn [snd]. intros Hapart Hst He. rewrite Hst, He.
  case_bool_decide as Hty; cbn [negb]; [|discriminate].
  intros H. apply bind_Ok in H as (r & Hr & [= <-]). cbn [snd].
  apply GetMaxTypeString_result in Hr as [->|[->|(c & Hc & ->)]]; auto.
  now apply scalar_name_not_null.
Qed.

Lemma consistency_step_skip J ndebug st elem :
  is_null_type_string J (snd st) = false ->
  is_null_structure J elem = true ->
  consistency_step J ndebug st elem = Ok st.
Proof.
  destruct st as [ty ts]. unfold consistency_step, is_null_structure.
  cbn [snd]. now intros -> ->.
Qed.

(** Once [type_string] is not the name of null, the loop passes over the
    null structures. *)
Lemma consistency_loop_filter J ndebug l : forall st,
  null_name_apart J ->
  is_null_type_string J (snd st) = false ->
  consistency_loop J ndebug st
    (filter (fun v => is_null_structure J v = false) l)
  = consistency_loop J ndebug st l.
Proof.
  induction l as [|v l IH]; intros st Hapart Hst; [reflexivity|].
  rewrite filter_cons. destruct (is_null_structure J v) eqn:E.
  - rewrite decide_False by discriminate. cbn.
    rewrite consistency_step_skip by assumption. cbn. now apply IH.
  - rewrite decide_True by reflexivity. cbn.
    destruct (consistency_step J ndebug st v) as [st'|e] eqn:Hs; cbn;
      [|reflexivity].
    apply IH; [assumption|].
    eapply consistency_step_nonnull; eauto.
Qed.

Lemma body_drop_null J ndebug rec first rest :
  is_null_structure J first = true ->
  GetConsistentArrayStructure_body J ndebug rec (first :: rest)
  = GetConsistentArrayStructure_body J ndebug rec rest.
Proof.
  intros Hnull. pose proof Hnull as Hn.
  apply null_structure_Str in Hn as (s & -> & Hs).
  unfold GetConsistentArrayStructure_body.
  destruct rest as [|e r].
  - cbn. now rewrite Hs.
  - cbn [consistency_loop yyjson_get_type yyjson_mut_get_str].
    assert (Hstep : consistency_step J ndebug (YYJSON_TYPE_STR, Some s) e
                    = Ok (yyjson_get_type e, yyjson_mut_get_str e)).
    { unfold consistency_step. unfold is_null_structure in Hnull.
      cbn in Hnull. cbn [is_null_type_string]. now rewrite Hnull. }
    rewrite Hstep. cbn [mbind Result_bind].
    destruct (consistency_loop _ _ _ _) as [[ty ts]|x]; [|reflexivity].
    cbn [mbind Result_bind]. destruct ty; try reflexivity.
Qed.

Lemma body_filter J ndebug rec elems :
  null_name_apart J ->
  GetConsistentArrayStructure_body J ndebug rec
    (filter (fun v => is_null_structure J v = false) elems)
  = GetConsistentArrayStructure_body J ndebug rec elems.
Proof.
  intros Hapart. induction elems as [|first rest IH]; [reflexivity|].
  rewrite filter_cons. destruct (is_null_structure J first) eqn:E.
  - rewrite decide_False by discriminate.
    now rewrite body_drop_null by assumption.
  - rewrite decide_True by reflexivity.
    unfold GetConsistentArrayStructure_body.
    rewrite consistency_loop_filter by assumption.
    destruct (consistency_loop _ _ _ _) as [[ty ts]|x]; [|reflexivity].
    cbn [mbind Result_bind].
    pose proof (flat_map_arr_iter_filter J (first :: rest)) as Ha.
    pose proof (all_members_filter J (first :: rest)) as Hm.
    rewrite filter_cons, decide_True in Ha, Hm by assumption.
    destruct ty; try reflexivity.
    + unfold GetConsistentArrayStructureArray. now rewrite Ha.
    + rewrite !GetConsistentArrayStructureObject_spec. now rewrite Hm.
Qed.

(** X14. The structures of JSON nulls do not count: removing them from
    the list of element structures changes neither the structure
    returned nor the exception thrown. *)
Theorem null_structures_are_ignored J ndebug elems :
  null_name_apart J ->
  GetConsistentArrayStructure J ndebug
    (filter (fun v => is_null_structure J v = false) elems)
  = GetConsistentArrayStructure J ndebug elems.
Proof.
  intros Hapart. rewrite !GetConsistentArrayStructure_unfold.
  now apply body_filter.
Qed.

(* ---------- objects ---------- *)

Lemma consistency_loop_same_container J ndebug ty l :
  ty = YYJSON_TYPE_ARR \/ ty = YYJSON_TYPE_OBJ ->
  Forall (fun v => yyjson_get_type v = ty) l ->
  consistency_loop J ndebug (ty, None) l = Ok (ty, None).
Proof.
  intros Hty. induction 1 as [|v l Hv _ IH]; [reflexivity|]. cbn.
  assert (Hs : yyjson_mut_get_str v = None).
  { destruct v; cbn in *; try reflexivity.
    destruct Hty; congruence. }
  unfold consistency_step. rewrite Hs, Hv. cbn.
  rewrite bool_decide_eq_true_2 by reflexivity. cbn. exact IH.
Qed.

(** X15. The consistent structure of a list of objects is an object
    with one member per key, the keys (read up to their first NUL) at
    their first occurrence, and under each key the consistent structure
    of the values the objects hold under it. *)
Theorem objects_are_merged_by_key J ndebug elems :
  elems <> [] ->
  Forall (fun v => yyjson_get_type v = YYJSON_TYPE_OBJ) elems ->
  GetConsistentArrayStructure J ndebug elems =
  (members ←
     mapM (fun k =>
             val ← GetConsistentArrayStructure J ndebug
                     (values_of k (all_members elems));
             Ok (k, val))
       (first_occurrences (member_key <$> all_members elems));
   Ok (Obj members)).
Proof.
  intros Hne Hall. rewrite GetConsistentArrayStructure_unfold.
  unfold GetConsistentArrayStructure_body.
  destruct elems as [|first others]; [contradiction|].
  inversion Hall as [|? ? Hf Ho]; subst.
  assert (Hs : yyjson_mut_get_str first = None)
    by (destruct first; cbn in *; congruence).
  rewrite Hf, Hs.
  rewrite consistency_loop_same_container by auto.
  cbn [mbind Result_bind].
  apply GetConsistentArrayStructureObject_spec.
Qed.

(** X17. The structure of an object keeps every member under its key,
    in the order of the object, repeated keys included: each member's
    value is replaced by its structure. *)
Theorem BuildStructure_object_members J ndebug members v :
  BuildStructure J ndebug (Obj members) = Ok v ->
  exists ms,
    v = Obj ms /\
    Forall2 (fun m m' =>
               fst m' = fst m /\
               BuildStructure J ndebug (snd m) = Ok (snd m'))
      members ms.
Proof.
  cbn [BuildStructure]. intros H.
  apply bind_Ok in H as (ms & Hms & [= <-]). exists ms. split; [reflexivity|].
  apply mapM_Result_Ok in Hms.
  eapply Forall2_impl; [exact Hms|]. cbn.
  intros m m' H. apply bind_Ok in H as (x & Hx & [= <-]). auto.
Qed.

(* ---------- inconsistent arrays ---------- *)

Lemma consistency_loop_mismatch J ndebug l : forall st,
  null_name_apart J ->
  known_state J st ->
  is_null_type_string J (snd st) = false ->
  Forall (fun v => is_structure J v = true) l ->
  Forall (fun v => is_null_structure J v = false) l ->
  (exists x, x ∈ l /\ yyjson_get_type x <> fst st) ->
  consistency_loop J ndebug st l
  = Throw (InvalidInputException "Inconsistent JSON structure").
Proof.
  induction l as [|e rest IH]; intros st Hapart Hk Hnn Hs Hn (x & Hx & Hty).
  { now apply not_elem_of_nil in Hx. }
  inversion Hs as [|? ? Hse Hsr]; subst.
  inversion Hn as [|? ? Hne Hnr]; subst. cbn.
  destruct (consistency_step_known J ndebug st e Hk Hse)
    as [(st' & Hstep & Hk')|Hstep]; rewrite Hstep; cbn; [|reflexivity].
  pose proof (consistency_step_nonnull J ndebug st e st' Hapart Hnn Hne Hstep)
    as Hnn'.
  assert (Hfst : fst st' = fst st /\ yyjson_get_type e = fst st).
  { destruct st as [ty ts]. unfold consistency_step in Hstep.
    unfold is_null_structure in Hne. cbn [snd] in Hnn.
    rewrite Hnn, Hne in Hstep.
    case_bool_decide as Hd; cbn [negb] in Hstep; [|discriminate].
    apply bind_Ok in Hstep as (r & _ & [= <-]). cbn. auto. }
  destruct Hfst as [Hfst Hte].
  apply IH; auto. exists x. split; [|congruence].
  apply elem_of_cons in Hx as [->|Hx]; [congruence|assumption].
Qed.

(** X16. Two element structures of different JSON types, neither the
    structure of a null, make the array inconsistent. *)
Theorem inconsistent_types_are_rejected J ndebug elems a b :
  null_name_apart J ->
  Forall (fun v => is_structure J v = true) elems ->
  a ∈ elems -> b ∈ elems ->
  is_null_structure J a = false ->
  is_null_structure J b = false ->
  yyjson_get_type a <> yyjson_get_type b ->
  GetConsistentArrayStructure J ndebug elems
  = Throw (InvalidInputException "Inconsistent JSON structure").
Proof.
  intros Hapart Hs Ha Hb Hna Hnb Hab.
  rewrite GetConsistentArrayStructure_unfold, <- body_filter by assumption.
  set (l := filter (fun v => is_null_structure J v = false) elems).
  assert (Hal : a ∈ l) by (apply list_elem_of_filter; auto).
  assert (Hbl : b ∈ l) by (apply list_elem_of_filter; auto).
  assert (Hsl : Forall (fun v => is_structure J v = true) l).
  { apply List.Forall_forall. intros v Hv.
    apply list_elem_of_In, list_elem_of_filter in Hv as [_ Hv].
    rewrite List.Forall_forall in Hs. apply Hs. now apply list_elem_of_In. }
  assert (Hnl : Forall (fun v => is_null_structure J v = false) l).
  { apply List.Forall_forall. intros v Hv.
    apply list_elem_of_In, list_elem_of_filter in Hv. tauto. }
  clearbody l. destruct l as [|first rest].
  { now apply not_elem_of_nil in Hal. }
  inversion Hsl as [|? ? Hsf Hsr]; subst.
  inversion Hnl as [|? ? Hnf Hnr]; subst.
  unfold GetConsistentArrayStructure_body.
  rewrite consistency_loop_mismatch; auto.
  - unfold known_state. cbn.
    destruct (yyjson_mut_get_str first) eqn:E; [|exact I].
    eapply is_structure_str; eauto.
  - cbn [fst].
    destruct (decide (yyjson_get_type a = yyjson_get_type first)) as [Ea|Ea].
    + exists b. split; [|congruence].
      apply elem_of_cons in Hbl as [->|Hbl]; [congruence|assumption].
    + exists a. split; [|assumption].
      apply elem_of_cons in Hal as [->|Hal]; [congruence|assumption].
Qed.

(* ---------- arrays of scalars ---------- *)

Lemma GetMaxTypeString_max J ndebug t e i j :
  NoDup (c_str <$> scalar_type_names J) ->
  has_rank J t i -> has_rank J e j ->
  exists r,
    GetMaxTypeString J ndebug (Some t) (Some e) = Ok (Some r) /\
    has_rank J r (i `max` j).
Proof.
  unfold has_rank.
  intros Hnd Hi Hj. unfold scalar_type_names in *. cbn in Hnd, Hi, Hj.
  rewrite !NoDup_cons in Hnd.
  rewrite !not_elem_of_cons in Hnd.
  destruct Hnd as ((B1 & B2 & B3 & B4 & _) & (U1 & U2 & U3 & _) &
                   (I1 & I2 & _) & (D1 & _) & _).
  unfold GetMaxTypeString, EitherEquals.
  rewrite !StringEquals_decide.
  destruct i as [|[|[|[|[|i]]]]]; cbn in Hi; try discriminate;
  destruct j as [|[|[|[|[|j]]]]]; cbn in Hj; try discriminate;
  injection Hi as Hi; injection Hj as Hj; rewrite <- ?Hi, <- ?Hj;
  repeat (case_bool_decide; try congruence);
  cbn; eexists; (split; [reflexivity|cbn; congruence]).
Qed.

Lemma has_rank_inj J s i j :
  NoDup (c_str <$> scalar_type_names J) ->
  has_rank J s i -> has_rank J s j -> i = j.
Proof. intros Hnd Hi Hj. eapply NoDup_lookup; eauto. Qed.

Lemma has_rank_not_null J s i :
  NoDup (c_str <$> known_names J) ->
  has_rank J s i -> is_null_type_string J (Some s) = false.
Proof.
  intros Hnd Hi. cbn. apply StringEquals_neq. intros E.
  unfold known_names in Hnd. rewrite fmap_cons, NoDup_cons in Hnd.
  destruct Hnd as [Hnull _]. apply Hnull. rewrite <- E.
  eapply list_elem_of_lookup_2. exact Hi.
Qed.

Lemma known_name_rank J s :
  known_name J s -> is_null_type_string J (Some s) = false ->
  exists i, has_rank J s i.
Proof.
  unfold known_name, known_names. rewrite fmap_cons, elem_of_cons.
  intros [E|H] Hn.
  - cbn in Hn. apply StringEquals_neq in Hn. contradiction.
  - apply list_elem_of_lookup_1 in H as [i Hi]. exists i. exact Hi.
Qed.

Lemma consistency_loop_scalars J ndebug (ms : list string) : forall s i,
  NoDup (c_str <$> known_names J) ->
  has_rank J s i ->
  Forall (fun m => exists j, has_rank J m j) ms ->
  exists r i',
    consistency_loop J ndebug (YYJSON_TYPE_STR, Some s) (Str <$> ms)
    = Ok (YYJSON_TYPE_STR, Some r) /\
    has_rank J r i' /\
    (c_str r = c_str s \/ c_str r ∈ c_str <$> ms) /\
    (i <= i')%nat /\
    (forall m j, m ∈ ms -> has_rank J m j -> (j <= i')%nat).
Proof.
  induction ms as [|m ms IH]; intros s i Hnd Hs Hms.
  - exists s, i. cbn. repeat split; auto. intros m j Hm.
    now apply not_elem_of_nil in Hm.
  - inversion Hms as [|? ? (j & Hj) Hrest]; subst.
    assert (Hnd' : NoDup (c_str <$> scalar_type_names J)).
    { unfold known_names in Hnd. rewrite fmap_cons, NoDup_cons in Hnd. tauto. }
    destruct (GetMaxTypeString_max J ndebug s m i j Hnd' Hs Hj)
      as (r1 & Hr1 & Hrank1).
    rewrite fmap_cons. cbn [consistency_loop].
    assert (Hstep : consistency_step J ndebug (YYJSON_TYPE_STR, Some s) (Str m)
                    = Ok (YYJSON_TYPE_STR, Some r1)).
    { unfold consistency_step. cbn [yyjson_get_type yyjson_mut_get_str].
      rewrite (has_rank_not_null J s i), (has_rank_not_null J m j) by assumption.
      rewrite bool_decide_eq_true_2 by reflexivity. cbn [negb].
      now rewrite Hr1. }
    rewrite Hstep. cbn [mbind Result_bind].
    destruct (IH r1 (i `max` j) Hnd Hrank1 Hrest)
      as (r & i' & Hloop & Hrank & Hfrom & Hle & Hall).
    exists r, i'. split; [exact Hloop|]. split; [exact Hrank|].
    assert (Hr1from : c_str r1 = c_str s \/ c_str r1 = c_str m).
    { unfold has_rank in *.
      destruct (Nat.max_spec i j) as [[_ E]|[_ E]]; rewrite E in Hrank1.
      - right. congruence.
      - left. congruence. }
    split; [|split].
    + rewrite fmap_cons, elem_of_cons.
      destruct Hfrom as [Hfrom|Hfrom]; [|auto].
      destruct Hr1from as [E|E]; [left|right; left]; congruence.
    + lia.
    + intros n k Hn Hk. apply elem_of_cons in Hn as [->|Hn].
      * assert (k = j) as -> by (eapply (has_rank_inj J m); eauto). lia.
      * eapply Hall; eauto.
Qed.

Lemma filter_fmap_Str J (ns : list string) :
  filter (fun v => is_null_structure J v = false) (Str <$> ns)
  = Str <$> filter (fun n => is_null_type_string J (Some n) = false) ns.
Proof.
  induction ns as [|n ns IH]; [reflexivity|].
  rewrite fmap_cons, !filter_cons.
  change (is_null_structure J (Str n)) with (is_null_type_string J (Some n)).
  destruct (is_null_type_string J (Some n)).
  - rewrite !decide_False by discriminate. exact IH.
  - rewrite !decide_True by reflexivity. now rewrite fmap_cons, IH.
Qed.

(** X18. The consistent structure of a list of type names is a type
    name: the name of null when all are, otherwise the one among them of
    the highest rank in the widening order. *)
Theorem scalar_array_structure J ndebug (ns : list string) :
  NoDup (c_str <$> known_names J) ->
  Forall (known_name J) ns ->
  exists r,
    GetConsistentArrayStructure J ndebug (Str <$> ns) = Ok (Str r) /\
    ((Forall (fun n => c_str n = c_str (TYPE_STRING_NULL J)) ns /\
      r = c_str (TYPE_STRING_NULL J))
     \/
     (exists i,
        (c_str <$> scalar_type_names J) !! i = Some r /\
        r ∈ c_str <$> ns /\
        forall n j, n ∈ ns -> has_rank J n j -> (j <= i)%nat)).
Proof.
  intros Hnd Hknown.
  assert (Hapart : null_name_apart J).
  { unfold null_name_apart. unfold known_names in Hnd.
    rewrite fmap_cons, NoDup_cons in Hnd. tauto. }
  rewrite GetConsistentArrayStructure_unfold, <- body_filter by assumption.
  rewrite filter_fmap_Str.
  set (ms := filter (fun n => is_null_type_string J (Some n) = false) ns).
  assert (Hms : forall n, n ∈ ms <->
                  n ∈ ns /\ is_null_type_string J (Some n) = false).
  { intros n. subst ms. rewrite list_elem_of_filter. tauto. }
  clearbody ms. destruct ms as [|f rest].
  - exists (c_str (TYPE_STRING_NULL J)). split; [reflexivity|]. left.
    split; [|reflexivity]. apply List.Forall_forall. intros n Hn.
    apply list_elem_of_In in Hn.
    destruct (is_null_type_string J (Some n)) eqn:E.
    + cbn in E. now apply StringEquals_eq in E.
    + exfalso. eapply not_elem_of_nil. apply Hms. eauto.
  - assert (Hranks : Forall (fun m => exists j, has_rank J m j) (f :: rest)).
    { apply List.Forall_forall. intros m Hm. apply list_elem_of_In in Hm.
      apply Hms in Hm as [Hm Hn]. apply known_name_rank; [|assumption].
      rewrite List.Forall_forall in Hknown. apply Hknown.
      now apply list_elem_of_In. }
    inversion Hranks as [|? ? (i & Hi) Hrest]; subst.
    destruct (consistency_loop_scalars J ndebug rest f i Hnd Hi Hrest)
      as (r & i' & Hloop & Hrank & Hfrom & Hle & Hall).
    exists (c_str r). unfold GetConsistentArrayStructure_body.
    rewrite fmap_cons. cbn [yyjson_get_type yyjson_mut_get_str].
    rewrite Hloop. cbn [mbind Result_bind yyjson_mut_str].
    split; [reflexivity|]. right. exists i'. split; [exact Hrank|]. split.
    + assert (Hsub : forall m, m ∈ f :: rest -> c_str m ∈ c_str <$> ns).
      { intros m Hm. apply Hms in Hm as [Hm _].
        apply list_elem_of_fmap. eauto. }
      destruct Hfrom as [E|Hin].
      * rewrite E. apply Hsub. left.
      * apply list_elem_of_fmap in Hin as (m & -> & Hm).
        apply Hsub. now right.
    + intros n j Hn Hj.
      assert (Hnm : n ∈ f :: rest).
      { apply Hms. split; [assumption|].
        eapply has_rank_not_null; eauto. }
      apply elem_of_cons in Hnm as [->|Hnm].
      * assert (j = i) as -> by (eapply (has_rank_inj J f); eauto;
          unfold known_names in Hnd; rewrite fmap_cons, NoDup_cons in Hnd;
          tauto). lia.
      * eapply Hall; eauto.
Qed.

(** X11. On two scalar type names [GetMaxTypeString] returns the one
    that comes later in the widening order BOOLEAN, UBIGINT, BIGINT,
    DOUBLE, VARCHAR, in whichever order they are given, and its assertion
    does not fire. *)
Theorem GetMaxTypeString_widest J ndebug t e i j :
  NoDup (c_str <$> scalar_type_names J) ->
  has_rank J t i -> has_rank J e j ->
  exists r r',
    GetMaxTypeString J ndebug (Some t) (Some e) = Ok (Some r) /\
    GetMaxTypeString J ndebug (Some e) (Some t) = Ok (Some r') /\
    c_str r = c_str r' /\
    has_rank J r (i `max` j).
Proof.
  intros Hnd Hi Hj.
  destruct (GetMaxTypeString_max J ndebug t e i j Hnd Hi Hj) as (r & Hr & Hk).
  destruct (GetMaxTypeString_max J ndebug e t j i Hnd Hj Hi) as (r' & Hr' & Hk').
  exists r, r'. repeat split; auto.
  rewrite Nat.max_comm in Hk'. unfold has_rank in *. congruence.
Qed.

(** X19. The consistent structure of a list of arrays is an array of one
    element, the consistent structure of all their elements taken
    together. *)
Theorem arrays_are_merged_elementwise J ndebug elems :
  elems <> [] ->
  Forall (fun v => yyjson_get_type v = YYJSON_TYPE_ARR) elems ->
  GetConsistentArrayStructure J ndebug elems =
  (v ← GetConsistentArrayStructure J ndebug
         (flat_map yyjson_mut_arr_iter elems);
   Ok (Arr [v])).
Proof.
  intros Hne Hall. rewrite GetConsistentArrayStructure_unfold.
  unfold GetConsistentArrayStructure_body.
  destruct elems as [|first others]; [contradiction|].
  inversion Hall as [|? ? Hf Ho]; subst.
  assert (Hs : yyjson_mut_get_str first = None)
    by (destruct first; cbn in *; congruence).
  rewrite Hf, Hs.
  rewrite consistency_loop_same_container by auto.
  reflexivity.
Qed.

Lemma merged_members_keys (rec : list yyjson_val -> Result yyjson_val)
    (g : string -> list yyjson_val) (keys : list string)
    (ms : list (string * yyjson_val)) :
  mapM (fun k => val ← rec (g k); Ok (k, val)) keys = Ok ms ->
  fst <$> ms = keys /\
  Forall (fun m => exists k, rec (g k) = Ok (snd m)) ms.
Proof.
  intros H. apply mapM_Result_Ok in H.
  induction H as [|k m keys ms Hkm _ [IH1 IH2]]; [split; constructor|].
  apply bind_Ok in Hkm as (v & Hv & [= <-]). cbn. split.
  - now rewrite IH1.
  - constructor; [eauto|assumption].
Qed.

Lemma consistent_structure_is_normal J ndebug elems v :
  GetConsistentArrayStructure J ndebug elems = Ok v ->
  is_normal v = true.
Proof.
  revert v. induction elems as [elems IH] using depth_induction. intros v.
  rewrite GetConsistentArrayStructure_unfold.
  unfold GetConsistentArrayStructure_body.
  destruct elems as [|first others]; [intros [= <-]; reflexivity|].
  destruct (consistency_loop _ _ _ _) as [[ty ts]|e] eqn:Hloop;
    [|discriminate].
  cbn [mbind Result_bind].
  apply loop_type_of_elem in Hloop as [_ (x & Hx & ->)].
  destruct (yyjson_get_type x) eqn:Hty; try discriminate.
  - destruct ts; [intros [= <-]; reflexivity|discriminate].
  - unfold GetConsistentArrayStructureArray. intros H.
    apply bind_Ok in H as (w & Hw & [= <-]).
    apply IH in Hw.
    + cbn. now rewrite Hw.
    + apply child_of_depth; [apply nested_children|].
      eapply container_depth; eauto.
  - rewrite GetConsistentArrayStructureObject_spec. intros H.
    apply bind_Ok in H as (ms & Hms & [= <-]).
    apply merged_members_keys in Hms as [Hkeys Hvals].
    cbn. apply andb_true_iff. split.
    + apply bool_decide_eq_true. rewrite Hkeys.
      apply first_occurrences_NoDup.
    + apply forallb_forall. rewrite List.Forall_forall in Hvals.
      intros m Hm. destruct (Hvals m Hm) as (k & Hk).
      eapply IH; [|exact Hk].
      apply child_of_depth; [apply values_of_children|].
      eapply container_depth; eauto.
Qed.

(** X20. In every structure [GetConsistentArrayStructure] returns, at
    every depth, an array has exactly one element and the keys of an
    object are pairwise distinct. *)
Theorem GetConsistentArrayStructure_normal J ndebug elems v :
  GetConsistentArrayStructure J ndebug elems = Ok v ->
  is_normal v = true.
Proof. apply consistent_structure_is_normal. Qed.

(** X21. In every structure [BuildStructure] returns, every array has
    exactly one element, in which the keys of every object are pairwise
    distinct. *)
Theorem BuildStructure_merged_arrays J ndebug val v :
  BuildStructure J ndebug val = Ok v ->
  has_merged_arrays v = true.
Proof.
  revert v.
  induction val as [x Hx|elems IH|members IH] using yyjson_val_nested_ind;
    intros v.
  - assert (Hb : BuildStructure J ndebug x
                 = (s ← ValTypeToString J x; yyjson_mut_str (Some s)))
      by (destruct x; try reflexivity; destruct Hx).
    rewrite Hb. intros H. apply bind_Ok in H as (s & _ & [= <-]).
    reflexivity.
  - cbn [BuildStructure]. intros H.
    apply bind_Ok in H as (structs & _ & H).
    apply bind_Ok in H as (w & Hw & [= <-]).
    apply consistent_structure_is_normal in Hw. cbn. now rewrite Hw.
  - cbn [BuildStructure]. intros H.
    apply bind_Ok in H as (ms & Hms & [= <-]).
    apply mapM_Result_Ok in Hms. cbn. apply forallb_forall.
    apply List.Forall_forall.
    clear -IH Hms. induction Hms as [|m m' l k Hmm _ IHm]; [constructor|].
    inversion IH as [|? ? Hm Hl]; subst. constructor; [|now apply IHm].
    apply bind_Ok in Hmm as (w & Hw & [= <-]). cbn. now apply Hm.
Qed.

End JSONProperties.

(* ===================================================================== *)
(** * The JSON properties on examples *)
(* ===================================================================== *)

Lemma example_names_distinct :
  NoDup (JSON.c_str <$> JSON.known_names JSON.example_common).
Proof. compute_done. Defined.

Lemma example_scalar_names_distinct :
  NoDup (JSON.c_str <$> JSON.scalar_type_names JSON.example_common).
Proof. compute_done. Defined.

Lemma example_null_name_apart : JSON.null_name_apart JSON.example_common.
Proof. compute_done. Defined.

Lemma example_names_known x s :
  JSON.is_scalar x ->
  JSON.ValTypeToString JSON.example_common x = JSON.Ok s ->
  JSON.known_name JSON.example_common s.
Proof.
  destruct x; cbn; intros Hx; try destruct Hx; intros [= <-];
    compute_done.
Defined.

Lemma GetMaxTypeString_widest_witness :
  exists r r',
    JSON.GetMaxTypeString JSON.example_common false
      (Some "UBIGINT") (Some "DOUBLE") = JSON.Ok (Some r) /\
    JSON.GetMaxTypeString JSON.example_common false
      (Some "DOUBLE") (Some "UBIGINT") = JSON.Ok (Some r') /\
    JSON.c_str r = JSON.c_str r' /\
    JSON.has_rank JSON.example_common r 3.
Proof.
  apply (GetMaxTypeString_widest JSON.example_common false
           "UBIGINT" "DOUBLE" 1 3).
  - exact example_scalar_names_distinct.
  - reflexivity.
  - reflexivity.
Defined.

Lemma GetConsistentArrayStructure_throws_only_witness :
  JSON.InternalException
    "Unexpected JSON type arrived at GetConsistentArrayStructure"
  = JSON.InvalidInputException "Inconsistent JSON structure" \/
  JSON.InternalException
    "Unexpected JSON type arrived at GetConsistentArrayStructure"
  = JSON.InternalException
      "Unexpected JSON type arrived at GetConsistentArrayStructure" \/
  JSON.InternalException
    "Unexpected JSON type arrived at GetConsistentArrayStructure"
  = JSON.AssertionTriggered.
Proof.
  apply (GetConsistentArrayStructure_throws_only JSON.example_common false
           [JSON.Bool true; JSON.Bool false]).
  vm_compute. reflexivity.
Defined.

Lemma BuildStructure_outcome_witness :
  JSON.is_structure JSON.example_common
    (JSON.Arr
       [JSON.Obj [("a", JSON.Str "DOUBLE"); ("b", JSON.Str "NULL")]])
  = true.
Proof.
  apply (BuildStructure_outcome JSON.example_common false
           (JSON.Arr
              [JSON.Obj [("a", JSON.Uint 1)];
               JSON.Null;
               JSON.Obj [("a", JSON.Real (S754_zero false));
                         ("b", JSON.Null)]])).
  exact example_names_known.
Defined.

Lemma null_structures_are_ignored_witness :
  JSON.GetConsistentArrayStructure JSON.example_common false
    [JSON.Str "UBIGINT"; JSON.Str "DOUBLE"]
  = JSON.GetConsistentArrayStructure JSON.example_common false
      [JSON.Str "NULL"; JSON.Str "UBIGINT"; JSON.Str "NULL";
       JSON.Str "DOUBLE"].
Proof.
  apply (null_structures_are_ignored JSON.example_common false
           [JSON.Str "NULL"; JSON.Str "UBIGINT"; JSON.Str "NULL";
            JSON.Str "DOUBLE"]).
  exact example_null_name_apart.
Defined.

Lemma objects_are_merged_by_key_witness :
  JSON.GetConsistentArrayStructure JSON.example_common false
    [JSON.Obj [("a", JSON.Str "UBIGINT"); ("b", JSON.Str "NULL")];
     JSON.Obj [("b", JSON.Str "VARCHAR"); ("a", JSON.Str "DOUBLE")]]
  = JSON.Ok (JSON.Obj [("a", JSON.Str "DOUBLE"); ("b", JSON.Str "VARCHAR")]).
Proof.
  rewrite (objects_are_merged_by_key JSON.example_common false
             [JSON.Obj [("a", JSON.Str "UBIGINT"); ("b", JSON.Str "NULL")];
              JSON.Obj [("b", JSON.Str "VARCHAR"); ("a", JSON.Str "DOUBLE")]]).
  - vm_compute. reflexivity.
  - discriminate.
  - repeat constructor.
Defined.

Lemma inconsistent_types_are_rejected_witness :
  JSON.GetConsistentArrayStructure JSON.example_common false
    [JSON.Str "NULL"; JSON.Str "UBIGINT"; JSON.Arr [JSON.Str "NULL"]]
  = JSON.Throw (JSON.InvalidInputException "Inconsistent JSON structure").
Proof.
  apply (inconsistent_types_are_rejected JSON.example_common false
           [JSON.Str "NULL"; JSON.Str "UBIGINT"; JSON.Arr [JSON.Str "NULL"]]
           (JSON.Str "UBIGINT") (JSON.Arr [JSON.Str "NULL"])).
  - exact example_null_name_apart.
  - repeat constructor.
  - apply list_elem_of_further, list_elem_of_here.
  - apply list_elem_of_further, list_elem_of_further, list_elem_of_here.
  - reflexivity.
  - reflexivity.
  - discriminate.
Defined.

Lemma BuildStructure_object_members_witness :
  exists ms,
    JSON.Obj [("k", JSON.Str "UBIGINT"); ("k", JSON.Str "NULL")] = JSON.Obj ms /\
    Forall2 (fun m m' =>
               fst m' = fst m /\
               JSON.BuildStructure JSON.example_common false (snd m)
               = JSON.Ok (snd m'))
      [("k", JSON.Uint 1); ("k", JSON.Null)] ms.
Proof.
  apply (BuildStructure_object_members JSON.example_common false
           [("k", JSON.Uint 1); ("k", JSON.Null)]).
  vm_compute. reflexivity.
Defined.

Lemma scalar_array_structure_witness :
  exists r,
    JSON.GetConsistentArrayStructure JSON.example_common false
      (JSON.Str <$> ["UBIGINT"; "NULL"; "BIGINT"]) = JSON.Ok (JSON.Str r) /\
    ((Forall (fun n => JSON.c_str n = JSON.c_str "NULL")
        ["UBIGINT"; "NULL"; "BIGINT"] /\
      r = JSON.c_str "NULL")
     \/
     (exists i,
        (JSON.c_str <$> JSON.scalar_type_names JSON.example_common) !! i
        = Some r /\
        r ∈ JSON.c_str <$> ["UBIGINT"; "NULL"; "BIGINT"] /\
        forall n j, n ∈ ["UBIGINT"; "NULL"; "BIGINT"] ->
                    JSON.has_rank JSON.example_common n j -> (j <= i)%nat)).
Proof.
  apply (scalar_array_structure JSON.example_common false
           ["UBIGINT"; "NULL"; "BIGINT"]).
  - exact example_names_distinct.
  - repeat constructor; compute_done.
Defined.

Lemma arrays_are_merged_elementwise_witness :
  JSON.GetConsistentArrayStructure JSON.example_common false
    [JSON.Arr [JSON.Str "UBIGINT"];
     JSON.Arr [JSON.Str "VARCHAR"; JSON.Str "NULL"]]
  = (v ← JSON.GetConsistentArrayStructure JSON.example_common false
           [JSON.Str "UBIGINT"; JSON.Str "VARCHAR"; JSON.Str "NULL"];
     JSON.Ok (JSON.Arr [v])).
Proof.
  apply (arrays_are_merged_elementwise JSON.example_common false
           [JSON.Arr [JSON.Str "UBIGINT"];
            JSON.Arr [JSON.Str "VARCHAR"; JSON.Str "NULL"]]).
  - discriminate.
  - repeat constructor.
Defined.

Lemma GetConsistentArrayStructure_normal_witness :
  JSON.is_normal
    (JSON.Obj [("a", JSON.Str "DOUBLE"); ("b", JSON.Arr [JSON.Str "NULL"])])
  = true.
Proof.
  apply (GetConsistentArrayStructure_normal JSON.example_common false
           [JSON.Obj [("a", JSON.Str "UBIGINT"); ("b", JSON.Arr [])];
            JSON.Obj [("a", JSON.Str "DOUBLE"); ("a", JSON.Str "NULL")]]).
  vm_compute. reflexivity.
Defined.

Lemma BuildStructure_merged_arrays_witness :
  JSON.has_merged_arrays
    (JSON.Obj [("k", JSON.Arr [JSON.Str "BIGINT"]);
               ("k", JSON.Str "VARCHAR")])
  = true.
Proof.
  apply (BuildStructure_merged_arrays JSON.example_common false
           (JSON.Obj [("k", JSON.Arr [JSON.Uint 1; JSON.Sint (-1)]);
                      ("k", JSON.Str "x")])).
  vm_compute. reflexivity.
Defined.
